(** * Operand parsing and plan resolution of [optdd.c]

    A shallow embedding of [src/optdd.c]: the operand matcher
    ([operand_matches], [operand_is]), the diagnostic helper [usage], the
    operand pass and plan resolver [scanargs], and [main].

    Conventions.
    - Integers are [Z].  [uintmax_t] and [size_t] are both 64 bits wide
      (LP64), so storing a [uintmax_t] into a [size_t] object never
      truncates; [(uintmax_t) -1] is [UINTMAX_MAX = 2^64 - 1].
    - A [char const *] is a [charptr]: the null pointer, a pointer into a
      string (represented by the suffix it points at), or the value
      [NULL + 1], which designates no object.
    - The file-scope variables form the record [globals]; the process
      output is the [events] field, oldest first.
    - A computation is a function from [globals] to an [outcome]: it
      returns, it calls [exit], or it dereferences an invalid pointer.
    - [optdd.c] uses several identifiers it does not define (the flag
      constants, [MAX_BLOCKSIZE], [parse_symbols], [parse_integer], the
      [flags] and [statuses] tables, and the C library).  They are the
      fields of the class [Platform]; every general theorem holds for all
      platforms, and [Reference.platform] is one instance on which the
      program can be run. *)

From Stdlib Require Import ZArith String Ascii List Bool Lia.
From Stdlib Require Import Permutation.
Import ListNotations.

Local Open Scope string_scope.
Local Open Scope Z_scope.

(** ** Constants of the C library and of the enumeration in [optdd.c] *)

Definition EXIT_SUCCESS : Z := 0.
Definition EXIT_FAILURE : Z := 1.
Definition EOVERFLOW : Z := 75.
Definition UINTMAX_MAX : Z := 2 ^ 64 - 1.
Definition SIZE_MAX : Z := 2 ^ 64 - 1.

Definition to_uintmax (z : Z) : Z := z mod 2 ^ 64.

Definition PROGRAM_NAME : string := "dd".

(* Conversions bit masks (octal in the source). *)
Definition C_ASCII : Z := 1.          (* 01 *)
Definition C_EBCDIC : Z := 2.         (* 02 *)
Definition C_IBM : Z := 4.            (* 04 *)
Definition C_BLOCK : Z := 8.          (* 010 *)
Definition C_UNBLOCK : Z := 16.       (* 020 *)
Definition C_LCASE : Z := 32.         (* 040 *)
Definition C_UCASE : Z := 64.         (* 0100 *)
Definition C_SWAB : Z := 128.         (* 0200 *)
Definition C_NOERROR : Z := 256.      (* 0400 *)
Definition C_NOTRUNC : Z := 512.      (* 01000 *)
Definition C_SYNC : Z := 1024.        (* 02000 *)
Definition C_TWOBUFS : Z := 2048.     (* 04000 *)
Definition C_NOCREAT : Z := 4096.     (* 010000 *)
Definition C_EXCL : Z := 8192.        (* 020000 *)
Definition C_FDATASYNC : Z := 16384.  (* 040000 *)
Definition C_FSYNC : Z := 32768.      (* 0100000 *)
Definition C_SPARSE : Z := 65536.     (* 0200000 *)

Record symbol_value : Type := mkSymbol { symbol : string; value : Z }.

(* Conversion symbols, for conv="...". *)
Definition conversions : list symbol_value :=
  [ mkSymbol "ascii" (Z.lor (Z.lor C_ASCII C_UNBLOCK) C_TWOBUFS);
    mkSymbol "ebcdic" (Z.lor (Z.lor C_EBCDIC C_BLOCK) C_TWOBUFS);
    mkSymbol "ibm" (Z.lor (Z.lor C_IBM C_BLOCK) C_TWOBUFS);
    mkSymbol "block" (Z.lor C_BLOCK C_TWOBUFS);
    mkSymbol "unblock" (Z.lor C_UNBLOCK C_TWOBUFS);
    mkSymbol "lcase" (Z.lor C_LCASE C_TWOBUFS);
    mkSymbol "ucase" (Z.lor C_UCASE C_TWOBUFS);
    mkSymbol "sparse" C_SPARSE;
    mkSymbol "swab" (Z.lor C_SWAB C_TWOBUFS);
    mkSymbol "noerror" C_NOERROR;
    mkSymbol "nocreat" C_NOCREAT;
    mkSymbol "excl" C_EXCL;
    mkSymbol "notrunc" C_NOTRUNC;
    mkSymbol "sync" C_SYNC;
    mkSymbol "fdatasync" C_FDATASYNC;
    mkSymbol "fsync" C_FSYNC;
    mkSymbol "" 0 ].

(* gnulib's xstrtol.h *)
Inductive strtol_error : Type :=
| LONGINT_OK
| LONGINT_OVERFLOW
| LONGINT_INVALID_SUFFIX_CHAR
| LONGINT_INVALID_SUFFIX_CHAR_WITH_OVERFLOW
| LONGINT_INVALID.

Definition strtol_error_eqb (a b : strtol_error) : bool :=
  match a, b with
  | LONGINT_OK, LONGINT_OK
  | LONGINT_OVERFLOW, LONGINT_OVERFLOW
  | LONGINT_INVALID_SUFFIX_CHAR, LONGINT_INVALID_SUFFIX_CHAR
  | LONGINT_INVALID_SUFFIX_CHAR_WITH_OVERFLOW,
    LONGINT_INVALID_SUFFIX_CHAR_WITH_OVERFLOW
  | LONGINT_INVALID, LONGINT_INVALID => true
  | _, _ => false
  end.

(** ** Pointers, output and the file-scope variables *)

Inductive charptr : Type :=
| PNull                 (* NULL *)
| PStr (s : string)     (* points at the first byte of [s] *)
| PInvalid.             (* NULL + 1, or one past a terminator *)

(* The two input routines [iread_fnc] can point at. *)
Inductive reader : Type := iread | iread_fullblock.

Inductive event : Type :=
| Puts (line : string)                   (* puts: a line on stdout *)
| Fprintf_stderr (text : string)         (* fprintf (stderr, ...) *)
| Error_msg (errnum : Z) (msg : string). (* error (_, errnum, ...): the
                                            message after the "dd: " prefix *)

Record globals : Type := mkGlobals {
  optind : Z;
  page_size : Z;
  input_file : charptr;
  output_file : charptr;
  input_blocksize : Z;
  output_blocksize : Z;
  conversion_blocksize : Z;
  skip_records : Z;
  skip_bytes : Z;
  seek_records : Z;
  seek_bytes : Z;
  max_records : Z;
  max_bytes : Z;
  conversions_mask : Z;
  input_flags : Z;
  output_flags : Z;
  status_level : Z;
  warn_partial_read : bool;
  iread_fnc : reader;
  i_nocache : bool;
  o_nocache : bool;
  events : list event
}.

Definition set_optind (v : Z) (g : globals) : globals :=
  mkGlobals v (page_size g) (input_file g) (output_file g) (input_blocksize g)
    (output_blocksize g) (conversion_blocksize g) (skip_records g)
    (skip_bytes g) (seek_records g) (seek_bytes g) (max_records g)
    (max_bytes g) (conversions_mask g) (input_flags g) (output_flags g)
    (status_level g) (warn_partial_read g) (iread_fnc g) (i_nocache g)
    (o_nocache g) (events g).

Definition set_page_size (v : Z) (g : globals) : globals :=
  mkGlobals (optind g) v (input_file g) (output_file g) (input_blocksize g)
    (output_blocksize g) (conversion_blocksize g) (skip_records g)
    (skip_bytes g) (seek_records g) (seek_bytes g) (max_records g)
    (max_bytes g) (conversions_mask g) (input_flags g) (output_flags g)
    (status_level g) (warn_partial_read g) (iread_fnc g) (i_nocache g)
    (o_nocache g) (events g).

Definition set_input_file (v : charptr) (g : globals) : globals :=
  mkGlobals (optind g) (page_size g) v (output_file g) (input_blocksize g)
    (output_blocksize g) (conversion_blocksize g) (skip_records g)
    (skip_bytes g) (seek_records g) (seek_bytes g) (max_records g)
    (max_bytes g) (conversions_mask g) (input_flags g) (output_flags g)
    (status_level g) (warn_partial_read g) (iread_fnc g) (i_nocache g)
    (o_nocache g) (events g).

Definition set_output_file (v : charptr) (g : globals) : globals :=
  mkGlobals (optind g) (page_size g) (input_file g) v (input_blocksize g)
    (output_blocksize g) (conversion_blocksize g) (skip_records g)
    (skip_bytes g) (seek_records g) (seek_bytes g) (max_records g)
    (max_bytes g) (conversions_mask g) (input_flags g) (output_flags g)
    (status_level g) (warn_partial_read g) (iread_fnc g) (i_nocache g)
    (o_nocache g) (events g).

Definition set_input_blocksize (v : Z) (g : globals) : globals :=
  mkGlobals (optind g) (page_size g) (input_file g) (output_file g) v
    (output_blocksize g) (conversion_blocksize g) (skip_records g)
    (skip_bytes g) (seek_records g) (seek_bytes g) (max_records g)
    (max_bytes g) (conversions_mask g) (input_flags g) (output_flags g)
    (status_level g) (warn_partial_read g) (iread_fnc g) (i_nocache g)
    (o_nocache g) (events g).

Definition set_output_blocksize (v : Z) (g : globals) : globals :=
  mkGlobals (optind g) (page_size g) (input_file g) (output_file g)
    (input_blocksize g) v (conversion_blocksize g) (skip_records g)
    (skip_bytes g) (seek_records g) (seek_bytes g) (max_records g)
    (max_bytes g) (conversions_mask g) (input_flags g) (output_flags g)
    (status_level g) (warn_partial_read g) (iread_fnc g) (i_nocache g)
    (o_nocache g) (events g).

Definition set_conversion_blocksize (v : Z) (g : globals) : globals :=
  mkGlobals (optind g) (page_size g) (input_file g) (output_file g)
    (input_blocksize g) (output_blocksize g) v (skip_records g) (skip_bytes g)
    (seek_records g) (seek_bytes g) (max_records g) (max_bytes g)
    (conversions_mask g) (input_flags g) (output_flags g) (status_level g)
    (warn_partial_read g) (iread_fnc g) (i_nocache g) (o_nocache g) (events g).

Definition set_skip_records (v : Z) (g : globals) : globals :=
  mkGlobals (optind g) (page_size g) (input_file g) (output_file g)
    (input_blocksize g) (output_blocksize g) (conversion_blocksize g) v
    (skip_bytes g) (seek_records g) (seek_bytes g) (max_records g)
    (max_bytes g) (conversions_mask g) (input_flags g) (output_flags g)
    (status_level g) (warn_partial_read g) (iread_fnc g) (i_nocache g)
    (o_nocache g) (events g).

Definition set_skip_bytes (v : Z) (g : globals) : globals :=
  mkGlobals (optind g) (page_size g) (input_file g) (output_file g)
    (input_blocksize g) (output_blocksize g) (conversion_blocksize g)
    (skip_records g) v (seek_records g) (seek_bytes g) (max_records g)
    (max_bytes g) (conversions_mask g) (input_flags g) (output_flags g)
    (status_level g) (warn_partial_read g) (iread_fnc g) (i_nocache g)
    (o_nocache g) (events g).

Definition set_seek_records (v : Z) (g : globals) : globals :=
  mkGlobals (optind g) (page_size g) (input_file g) (output_file g)
    (input_blocksize g) (output_blocksize g) (conversion_blocksize g)
    (skip_records g) (skip_bytes g) v (seek_bytes g) (max_records g)
    (max_bytes g) (conversions_mask g) (input_flags g) (output_flags g)
    (status_level g) (warn_partial_read g) (iread_fnc g) (i_nocache g)
    (o_nocache g) (events g).

Definition set_seek_bytes (v : Z) (g : globals) : globals :=
  mkGlobals (optind g) (page_size g) (input_file g) (output_file g)
    (input_blocksize g) (output_blocksize g) (conversion_blocksize g)
    (skip_records g) (skip_bytes g) (seek_records g) v (max_records g)
    (max_bytes g) (conversions_mask g) (input_flags g) (output_flags g)
    (status_level g) (warn_partial_read g) (iread_fnc g) (i_nocache g)
    (o_nocache g) (events g).

Definition set_max_records (v : Z) (g : globals) : globals :=
  mkGlobals (optind g) (page_size g) (input_file g) (output_file g)
    (input_blocksize g) (output_blocksize g) (conversion_blocksize g)
    (skip_records g) (skip_bytes g) (seek_records g) (seek_bytes g) v
    (max_bytes g) (conversions_mask g) (input_flags g) (output_flags g)
    (status_level g) (warn_partial_read g) (iread_fnc g) (i_nocache g)
    (o_nocache g) (events g).

Definition set_max_bytes (v : Z) (g : globals) : globals :=
  mkGlobals (optind g) (page_size g) (input_file g) (output_file g)
    (input_blocksize g) (output_blocksize g) (conversion_blocksize g)
    (skip_records g) (skip_bytes g) (seek_records g) (seek_bytes g)
    (max_records g) v (conversions_mask g) (input_flags g) (output_flags g)
    (status_level g) (warn_partial_read g) (iread_fnc g) (i_nocache g)
    (o_nocache g) (events g).

Definition set_conversions_mask (v : Z) (g : globals) : globals :=
  mkGlobals (optind g) (page_size g) (input_file g) (output_file g)
    (input_blocksize g) (output_blocksize g) (conversion_blocksize g)
    (skip_records g) (skip_bytes g) (seek_records g) (seek_bytes g)
    (max_records g) (max_bytes g) v (input_flags g) (output_flags g)
    (status_level g) (warn_partial_read g) (iread_fnc g) (i_nocache g)
    (o_nocache g) (events g).

Definition set_input_flags (v : Z) (g : globals) : globals :=
  mkGlobals (optind g) (page_size g) (input_file g) (output_file g)
    (input_blocksize g) (output_blocksize g) (conversion_blocksize g)
    (skip_records g) (skip_bytes g) (seek_records g) (seek_bytes g)
    (max_records g) (max_bytes g) (conversions_mask g) v (output_flags g)
    (status_level g) (warn_partial_read g) (iread_fnc g) (i_nocache g)
    (o_nocache g) (events g).

Definition set_output_flags (v : Z) (g : globals) : globals :=
  mkGlobals (optind g) (page_size g) (input_file g) (output_file g)
    (input_blocksize g) (output_blocksize g) (conversion_blocksize g)
    (skip_records g) (skip_bytes g) (seek_records g) (seek_bytes g)
    (max_records g) (max_bytes g) (conversions_mask g) (input_flags g) v
    (status_level g) (warn_partial_read g) (iread_fnc g) (i_nocache g)
    (o_nocache g) (events g).

Definition set_status_level (v : Z) (g : globals) : globals :=
  mkGlobals (optind g) (page_size g) (input_file g) (output_file g)
    (input_blocksize g) (output_blocksize g) (conversion_blocksize g)
    (skip_records g) (skip_bytes g) (seek_records g) (seek_bytes g)
    (max_records g) (max_bytes g) (conversions_mask g) (input_flags g)
    (output_flags g) v (warn_partial_read g) (iread_fnc g) (i_nocache g)
    (o_nocache g) (events g).

Definition set_warn_partial_read (v : bool) (g : globals) : globals :=
  mkGlobals (optind g) (page_size g) (input_file g) (output_file g)
    (input_blocksize g) (output_blocksize g) (conversion_blocksize g)
    (skip_records g) (skip_bytes g) (seek_records g) (seek_bytes g)
    (max_records g) (max_bytes g) (conversions_mask g) (input_flags g)
    (output_flags g) (status_level g) v (iread_fnc g) (i_nocache g)
    (o_nocache g) (events g).

Definition set_iread_fnc (v : reader) (g : globals) : globals :=
  mkGlobals (optind g) (page_size g) (input_file g) (output_file g)
    (input_blocksize g) (output_blocksize g) (conversion_blocksize g)
    (skip_records g) (skip_bytes g) (seek_records g) (seek_bytes g)
    (max_records g) (max_bytes g) (conversions_mask g) (input_flags g)
    (output_flags g) (status_level g) (warn_partial_read g) v (i_nocache g)
    (o_nocache g) (events g).

Definition set_i_nocache (v : bool) (g : globals) : globals :=
  mkGlobals (optind g) (page_size g) (input_file g) (output_file g)
    (input_blocksize g) (output_blocksize g) (conversion_blocksize g)
    (skip_records g) (skip_bytes g) (seek_records g) (seek_bytes g)
    (max_records g) (max_bytes g) (conversions_mask g) (input_flags g)
    (output_flags g) (status_level g) (warn_partial_read g) (iread_fnc g) v
    (o_nocache g) (events g).

Definition set_o_nocache (v : bool) (g : globals) : globals :=
  mkGlobals (optind g) (page_size g) (input_file g) (output_file g)
    (input_blocksize g) (output_blocksize g) (conversion_blocksize g)
    (skip_records g) (skip_bytes g) (seek_records g) (seek_bytes g)
    (max_records g) (max_bytes g) (conversions_mask g) (input_flags g)
    (output_flags g) (status_level g) (warn_partial_read g) (iread_fnc g)
    (i_nocache g) v (events g).

Definition set_events (v : list event) (g : globals) : globals :=
  mkGlobals (optind g) (page_size g) (input_file g) (output_file g)
    (input_blocksize g) (output_blocksize g) (conversion_blocksize g)
    (skip_records g) (skip_bytes g) (seek_records g) (seek_bytes g)
    (max_records g) (max_bytes g) (conversions_mask g) (input_flags g)
    (output_flags g) (status_level g) (warn_partial_read g) (iread_fnc g)
    (i_nocache g) (o_nocache g) v.

Definition log (e : event) (g : globals) : globals :=
  set_events (events g ++ [e])%list g.

(* Several lines of output, in order. *)
Definition log_all (es : list event) (g : globals) : globals :=
  set_events (events g ++ es)%list g.

Inductive outcome (A : Type) : Type :=
| Returned (a : A) (g : globals)
| Exited (status : Z) (g : globals)
| Undefined.
Arguments Returned {A} a g.
Arguments Exited {A} status g.
Arguments Undefined {A}.

Definition M (A : Type) : Type := globals -> outcome A.

Definition ret {A : Type} (a : A) : M A := fun g => Returned a g.

Definition bind {A B : Type} (m : M A) (k : A -> M B) : M B :=
  fun g =>
    match m g with
    | Returned a g' => k a g'
    | Exited status g' => Exited status g'
    | Undefined => Undefined
    end.

Notation "x <- m ;; k" := (bind m (fun x => k))
  (at level 61, m at next level, right associativity).
Notation "m ;; k" := (bind m (fun _ => k))
  (at level 61, right associativity).

Definition modify (f : globals -> globals) : M unit :=
  fun g => Returned tt (f g).

Definition exit {A : Type} (status : Z) : M A := fun g => Exited status g.

Definition undefined {A : Type} : M A := fun _ => Undefined.

(* glibc's error (status, errnum, format, ...): print the message on stderr
   and, when [status] is nonzero, call exit (status). *)
Definition error (status errnum : Z) (msg : string) : M unit :=
  modify (log (Error_msg errnum msg));;
  if status =? 0 then ret tt else exit status.

(** Modelled from the spec: gnulib's [quote], which [optdd.c] calls but does
    not define; the diagnostics of section 6 put the value between single
    quotes. *)
Definition quote (s : string) : string := "'" ++ s ++ "'".

(** Modelled from the spec: the macro [DEFAULT_BLOCKSIZE], absent from
    [optdd.c]; section 4.4 step 2 gives the default block size as 512. *)
Definition DEFAULT_BLOCKSIZE : Z := 512.

(** Modelled from the spec: [multiple_bits_set], absent from [optdd.c];
    section 4.4 defines it as [x & (x-1) != 0]. *)
Definition multiple_bits_set (x : Z) : bool :=
  negb (Z.land x (x - 1) =? 0).

(** ** What [optdd.c] takes from elsewhere *)

Record getopt_result : Type := mkGetopt {
  getopt_ret : Z;                 (* the value getopt_long returns *)
  getopt_optind : Z;              (* optind afterwards *)
  getopt_argv : list string;      (* argv afterwards (it may be permuted) *)
  getopt_written : list event     (* what the call wrote on stderr *)
}.

Class Platform : Type := {
  (* open(2) flags and dd's own flag bits *)
  O_DIRECT : Z;
  O_DSYNC : Z;
  O_SYNC : Z;
  O_RSYNC : Z;
  O_NOCACHE : Z;
  O_FULLBLOCK : Z;
  O_COUNT_BYTES : Z;
  O_SKIP_BYTES : Z;
  O_SEEK_BYTES : Z;
  (* symbol tables for iflag/oflag and status *)
  flags : list symbol_value;
  statuses : list symbol_value;
  (* block size limits *)
  MAX_BLOCKSIZE : Z -> Z;
  INPUT_BLOCK_SLOP : Z;
  OUTPUT_BLOCK_SLOP : Z;
  (* parse_symbols (str, table, exclusive, error_msgid): the mask, or the
     token it rejects *)
  parse_symbols : string -> list symbol_value -> bool -> string -> Z + string;
  (* parse_integer (str, &invalid): the number and the value left in
     [invalid] *)
  parse_integer : string -> Z * strtol_error;
  (* getopt_long (argc, argv, optstring, NULL, NULL) on a fresh process *)
  getopt_long : list string -> string -> getopt_result;
  (* sysconf (_SC_PAGESIZE) *)
  sysconf_SC_PAGESIZE : Z
}.

(** ** [usage], [operand_is], [operand_matches] *)

Definition usage (status : Z) : M unit :=
  if negb (status =? EXIT_SUCCESS)
  then modify (log (Fprintf_stderr
         ("Try '" ++ PROGRAM_NAME ++ " --help' for more information.")))
  else exit status.

Fixpoint operand_matches (str pattern : string) (delim : ascii) : bool :=
  match pattern with
  | String p pattern' =>
      match str with
      | String c str' =>
          if Ascii.eqb c p then operand_matches str' pattern' delim else false
      | EmptyString => false
      end
  | EmptyString =>
      match str with
      | EmptyString => true
      | String c _ => Ascii.eqb c delim
      end
  end.

Definition operand_is (operand name : string) : bool :=
  operand_matches operand name "=".

(* strchr (s, c) for c <> 0: a pointer to the first [c] in [s], or NULL. *)
Fixpoint strchr (s : string) (c : ascii) : charptr :=
  match s with
  | EmptyString => PNull
  | String a s' => if Ascii.eqb a c then PStr s else strchr s' c
  end.

(* p++ *)
Definition ptr_incr (p : charptr) : charptr :=
  match p with
  | PStr (String _ s') => PStr s'
  | _ => PInvalid
  end.

(* Reading the string a pointer designates. *)
Definition deref {A : Type} (p : charptr) (k : string -> M A) : M A :=
  match p with
  | PStr s => k s
  | _ => undefined
  end.

(** ** [scanargs] *)

(* The automatic variables of [scanargs] that outlive one loop iteration. *)
Record locals : Type := mkLocals {
  blocksize : Z;
  count : Z;
  skip : Z;
  seek : Z
}.

Definition set_blocksize (v : Z) (l : locals) : locals :=
  mkLocals v (count l) (skip l) (seek l).
Definition set_count (v : Z) (l : locals) : locals :=
  mkLocals (blocksize l) v (skip l) (seek l).
Definition set_skip (v : Z) (l : locals) : locals :=
  mkLocals (blocksize l) (count l) v (seek l).
Definition set_seek (v : Z) (l : locals) : locals :=
  mkLocals (blocksize l) (count l) (skip l) v.

(* blocksize = 0, count = (uintmax_t) -1, skip = 0, seek = 0 *)
Definition initial_locals : locals := mkLocals 0 UINTMAX_MAX 0 0.

(* The truth value of an integer expression. *)
Definition nonzero (z : Z) : bool := negb (z =? 0).

(* if (c) m; *)
Definition when_ (c : globals -> bool) (m : M unit) : M unit :=
  fun g => if c g then m g else Returned tt g.

Section Program.

Context {P : Platform}.

(** Modelled from the spec: how a call of [parse_symbols] ends when it
    rejects a token.  The function is not in [optdd.c]; section 4.2 has an
    unmatched token fail with the caller's diagnostic, section 6 has each
    fatal diagnostic followed by the "Try ..." line, and section 7 makes
    the failure end the process. *)
Definition call_parse_symbols (val : charptr) (table : list symbol_value)
    (exclusive : bool) (error_msgid : string) : M Z :=
  deref val (fun v =>
    match parse_symbols v table exclusive error_msgid with
    | inl mask => ret mask
    | inr token =>
        error 0 0 (error_msgid ++ ": " ++ quote token);;
        modify (log (Fprintf_stderr
          ("Try '" ++ PROGRAM_NAME ++ " --help' for more information.")));;
        exit EXIT_FAILURE
    end).

(* The last branch of the operand chain (lines 228-280): [v] is the string
   [val] points at. *)
Definition scan_number (name v : string) (l : locals) : M locals :=
  let invalid := snd (parse_integer v) in
  let n := to_uintmax (fst (parse_integer v)) in
  lim <-
    (if operand_is name "ibs" then
       modify (set_input_blocksize n);;
       ret (1, MAX_BLOCKSIZE INPUT_BLOCK_SLOP, l)
     else if operand_is name "obs" then
       modify (set_output_blocksize n);;
       ret (1, MAX_BLOCKSIZE OUTPUT_BLOCK_SLOP, l)
     else if operand_is name "bs" then
       ret (1, MAX_BLOCKSIZE INPUT_BLOCK_SLOP, set_blocksize n l)
     else if operand_is name "cbs" then
       modify (set_conversion_blocksize n);;
       ret (1, SIZE_MAX, l)
     else if operand_is name "skip" then
       ret (0, UINTMAX_MAX, set_skip n l)
     else if operand_is name "seek" then
       ret (0, UINTMAX_MAX, set_seek n l)
     else if operand_is name "count" then
       ret (0, UINTMAX_MAX, set_count n l)
     else
       error 0 0 ("unrecognized operand " ++ quote name);;
       usage EXIT_FAILURE;;
       ret (0, UINTMAX_MAX, l));;
  let '(n_min, n_max, l') := lim in
  let invalid :=
    if n <? n_min then LONGINT_INVALID
    else if n_max <? n then LONGINT_OVERFLOW
    else invalid in
  (if negb (strtol_error_eqb invalid LONGINT_OK) then
     error EXIT_FAILURE
       (if strtol_error_eqb invalid LONGINT_OVERFLOW then EOVERFLOW else 0)
       ("invalid number: " ++ quote v)
   else ret tt);;
  ret l'.

(* One iteration of the loop over argv (lines 171-281). *)
Definition scan_operand (name : string) (l : locals) : M locals :=
  let val := strchr name "=" in
  (match val with
   | PNull =>
       error 0 0 ("unrecognized operand " ++ name);;
       usage EXIT_FAILURE
   | _ => ret tt
   end);;
  let val := ptr_incr val in
  if operand_is name "if" then
    modify (set_input_file val);; ret l
  else if operand_is name "of" then
    modify (set_output_file val);; ret l
  else if operand_is name "conv" then
    m <- call_parse_symbols val conversions false "invalid conversion";;
    modify (fun g => set_conversions_mask (Z.lor (conversions_mask g) m) g);;
    ret l
  else if operand_is name "iflag" then
    m <- call_parse_symbols val flags false "invalid input flag";;
    modify (fun g => set_input_flags (Z.lor (input_flags g) m) g);;
    ret l
  else if operand_is name "oflag" then
    m <- call_parse_symbols val flags false "invalid output flag";;
    modify (fun g => set_output_flags (Z.lor (output_flags g) m) g);;
    ret l
  else if operand_is name "status" then
    m <- call_parse_symbols val statuses true "invalid status level";;
    modify (set_status_level m);;
    ret l
  else
    deref val (fun v => scan_number name v l).

(* for (i = optind; i < argc; i++) ... *)
Fixpoint scan_operands (args : list string) (l : locals) : M locals :=
  match args with
  | [] => ret l
  | name :: rest => l' <- scan_operand name l;; scan_operands rest l'
  end.

(* Lines 283-300. *)
Definition resolve_blocksizes (l : locals) (g : globals) : globals :=
  let g :=
    if nonzero (blocksize l)
    then set_input_blocksize (blocksize l)
           (set_output_blocksize (blocksize l) g)
    else set_conversions_mask (Z.lor (conversions_mask g) C_TWOBUFS) g in
  let g :=
    if input_blocksize g =? 0
    then set_input_blocksize DEFAULT_BLOCKSIZE g else g in
  let g :=
    if output_blocksize g =? 0
    then set_output_blocksize DEFAULT_BLOCKSIZE g else g in
  let g :=
    if conversion_blocksize g =? 0
    then set_conversions_mask
           (Z.land (conversions_mask g) (Z.lnot (Z.lor C_BLOCK C_UNBLOCK))) g
    else g in
  if nonzero (Z.land (input_flags g) (Z.lor O_DSYNC O_SYNC))
  then set_input_flags (Z.lor (input_flags g) O_RSYNC) g
  else g.

(* Lines 302-320. *)
Definition check_flag_placement : M unit :=
  when_ (fun g => nonzero (Z.land (output_flags g) O_FULLBLOCK))
    (error 0 0 ("invalid output flag: " ++ quote "fullblock");;
     usage EXIT_FAILURE);;
  when_ (fun g => nonzero (Z.land (input_flags g) O_SEEK_BYTES))
    (error 0 0 ("invalid input flag: " ++ quote "seek_bytes");;
     usage EXIT_FAILURE);;
  when_ (fun g =>
           nonzero (Z.land (output_flags g) (Z.lor O_COUNT_BYTES O_SKIP_BYTES)))
    (fun g =>
       (error 0 0
          ("invalid output flag: "
           ++ quote (if nonzero (Z.land (output_flags g) O_COUNT_BYTES)
                     then "count_bytes" else "skip_bytes"));;
        usage EXIT_FAILURE) g).

(* Lines 322-344.  The operands of / and % are unsigned, and the divisor is
   a block size, which is at least 1 here. *)
Definition derive_offsets (l : locals) (g : globals) : globals :=
  let g :=
    if nonzero (Z.land (input_flags g) O_SKIP_BYTES) && nonzero (skip l)
    then set_skip_bytes (skip l mod input_blocksize g)
           (set_skip_records (skip l / input_blocksize g) g)
    else if nonzero (skip l) then set_skip_records (skip l) g
    else g in
  let g :=
    if nonzero (Z.land (input_flags g) O_COUNT_BYTES)
       && negb (count l =? UINTMAX_MAX)
    then set_max_bytes (count l mod input_blocksize g)
           (set_max_records (count l / input_blocksize g) g)
    else if negb (count l =? UINTMAX_MAX) then set_max_records (count l) g
    else g in
  if nonzero (Z.land (output_flags g) O_SEEK_BYTES) && nonzero (seek l)
  then set_seek_bytes (seek l mod output_blocksize g)
         (set_seek_records (seek l / output_blocksize g) g)
  else if nonzero (seek l) then set_seek_records (seek l) g
  else g.

(* Lines 350-359. *)
Definition choose_read_strategy (g : globals) : globals :=
  let g :=
    set_warn_partial_read
      (negb (nonzero (Z.land (conversions_mask g) C_TWOBUFS))
       && negb (nonzero (Z.land (input_flags g) O_FULLBLOCK))
       && (nonzero (skip_records g)
           || ((0 <? max_records g) && (max_records g <? UINTMAX_MAX))
           || nonzero (Z.land (Z.lor (input_flags g) (output_flags g))
                         O_DIRECT))) g in
  let g :=
    set_iread_fnc
      (if nonzero (Z.land (input_flags g) O_FULLBLOCK)
       then iread_fullblock else iread) g in
  set_input_flags (Z.land (input_flags g) (Z.lnot O_FULLBLOCK)) g.

(* Lines 361-371. *)
Definition check_exclusive : M unit :=
  when_ (fun g => multiple_bits_set
                    (Z.land (conversions_mask g)
                       (Z.lor (Z.lor C_ASCII C_EBCDIC) C_IBM)))
    (error EXIT_FAILURE 0 "cannot combine any two of {ascii,ebcdic,ibm}");;
  when_ (fun g => multiple_bits_set
                    (Z.land (conversions_mask g) (Z.lor C_BLOCK C_UNBLOCK)))
    (error EXIT_FAILURE 0 "cannot combine block and unblock");;
  when_ (fun g => multiple_bits_set
                    (Z.land (conversions_mask g) (Z.lor C_LCASE C_UCASE)))
    (error EXIT_FAILURE 0 "cannot combine lcase and ucase");;
  when_ (fun g => multiple_bits_set
                    (Z.land (conversions_mask g) (Z.lor C_EXCL C_NOCREAT)))
    (error EXIT_FAILURE 0 "cannot combine excl and nocreat");;
  when_ (fun g =>
           multiple_bits_set
             (Z.land (input_flags g) (Z.lor O_DIRECT O_NOCACHE))
           || multiple_bits_set
                (Z.land (output_flags g) (Z.lor O_DIRECT O_NOCACHE)))
    (error EXIT_FAILURE 0 "cannot combine direct and nocache").

(* Lines 373-382. *)
Definition extract_nocache (g : globals) : globals :=
  let g :=
    if nonzero (Z.land (input_flags g) O_NOCACHE)
    then set_input_flags (Z.land (input_flags g) (Z.lnot O_NOCACHE))
           (set_i_nocache true g)
    else g in
  if nonzero (Z.land (output_flags g) O_NOCACHE)
  then set_output_flags (Z.land (output_flags g) (Z.lnot O_NOCACHE))
         (set_o_nocache true g)
  else g.

(* The operands are argv[optind] .. argv[argc - 1]. *)
Definition operands (argv : list string) (g : globals) : list string :=
  skipn (Z.to_nat (optind g)) argv.

(* Everything [scanargs] does before the exclusivity checks. *)
Definition resolve_fields (args : list string) : M unit :=
  l <- scan_operands args initial_locals;;
  modify (resolve_blocksizes l);;
  check_flag_placement;;
  modify (derive_offsets l);;
  modify choose_read_strategy.

Definition scanargs (argv : list string) : M unit :=
  fun g =>
    (resolve_fields (operands argv g);;
     check_exclusive;;
     modify extract_nocache) g.

(** ** [main] *)

Definition main (argv : list string) : M Z :=
  modify (log (Puts "Hello!"));;
  modify (set_page_size sysconf_SC_PAGESIZE);;
  let r := getopt_long argv "" in
  modify (log_all (getopt_written r));;
  modify (set_optind (getopt_optind r));;
  if nonzero (getopt_ret r) then
    modify (log (Puts "Incorrect Options! Do not use GNU style options"));;
    ret EXIT_FAILURE
  else
    scanargs (getopt_argv r);;
    ret EXIT_SUCCESS.

End Program.

(* The status the process ends with, when it ends. *)
Definition exit_status (o : outcome Z) : option Z :=
  match o with
  | Returned status _ => Some status
  | Exited status _ => Some status
  | Undefined => None
  end.

(** ** The start state and a reference platform *)

(** Modelled from the spec: the initial values of the file-scope variables,
    whose declarations are not in [optdd.c].  Section 3 gives the defaults
    of the raw fields (absent files, sizes and masks zero, the status level
    an implementation default, here a parameter); the derived fields start
    at zero, and [max_records] at the unset sentinel that step 9 of section
    4.4 compares it with.  [optind] is 1 before [getopt_long] runs. *)
Definition initial_globals (status_default : Z) : globals :=
  mkGlobals 1 0 PNull PNull 0 0 0 0 0 0 0 UINTMAX_MAX 0 0 0 0 status_default
    false iread false false [].

Module Reference.

(* Tokens of a comma-separated list. *)
Fixpoint split_commas (s : string) (token : string) : list string :=
  match s with
  | EmptyString => [token]
  | String c s' =>
      if Ascii.eqb c ","
      then token :: split_commas s' ""
      else split_commas s' (token ++ String c "")
  end.

(* Whole-name lookup; the table ends at the entry with the empty name. *)
Fixpoint lookup_symbol (token : string) (table : list symbol_value)
  : option Z :=
  match table with
  | [] => None
  | entry :: table' =>
      if String.eqb (symbol entry) "" then None
      else if String.eqb (symbol entry) token then Some (value entry)
      else lookup_symbol token table'
  end.

Fixpoint or_symbols (tokens : list string) (table : list symbol_value)
    (mask : Z) : Z + string :=
  match tokens with
  | [] => inl mask
  | token :: tokens' =>
      match lookup_symbol token table with
      | Some v => or_symbols tokens' table (Z.lor mask v)
      | None => inr token
      end
  end.

(** Modelled from the spec: [parse_symbols], absent from [optdd.c], after
    section 4.2: split the value on commas, reject an empty or unknown
    token, allow one token only when [exclusive], and OR the values. *)
Definition parse_symbols_spec (str : string) (table : list symbol_value)
    (exclusive : bool) (error_msgid : string) : Z + string :=
  match split_commas str "", exclusive with
  | _ :: _ :: _, true => inr str
  | tokens, _ => or_symbols tokens table 0
  end.

Definition is_digit (c : ascii) : bool :=
  ((48 <=? nat_of_ascii c) && (nat_of_ascii c <=? 57))%nat.

Fixpoint decimal (s : string) (acc : Z) : option Z :=
  match s with
  | EmptyString => Some acc
  | String c s' =>
      if is_digit c
      then decimal s' (10 * acc + (Z.of_nat (nat_of_ascii c) - 48))
      else None
  end.

(** Modelled from the spec: [parse_integer], absent from [optdd.c], cut
    down to the unsigned decimal numbers of section 4.3 (no suffix and no
    product): anything else is invalid, and a number above [UINTMAX_MAX]
    overflows. *)
Definition parse_decimal (str : string) : Z * strtol_error :=
  match str with
  | EmptyString => (0, LONGINT_INVALID)
  | _ =>
      match decimal str 0 with
      | None => (0, LONGINT_INVALID)
      | Some n =>
          if UINTMAX_MAX <? n then (UINTMAX_MAX, LONGINT_OVERFLOW)
          else (n, LONGINT_OK)
      end
  end.

(* An argv element that getopt takes for an option: it starts with '-'
   and is longer than "-". *)
Definition is_option (arg : string) : bool :=
  match arg with
  | String c (String _ _) => Ascii.eqb c "-"
  | _ => false
  end.

(* The first option character of an option argument. *)
Definition option_char (arg : string) : string :=
  match arg with
  | String _ (String c _) => String c ""
  | _ => ""
  end.

(* The scan of the first getopt_long call: [skipped] are the operands
   passed over so far (last first), [index] is the position of [head rest]
   in argv.  With no table of long options an argument "--name" is a
   cluster of short options whose first character is '-'. *)
Fixpoint getopt_scan (prog : string) (skipped rest : list string)
    (index : Z) : getopt_result :=
  match rest with
  | [] => mkGetopt (-1) 1 ((prog :: rev skipped) ++ rest)%list []
  | arg :: rest' =>
      if String.eqb arg "--"
      then mkGetopt (-1) 2 ((prog :: arg :: rev skipped) ++ rest')%list []
      else if is_option arg
      then mkGetopt 63
             (if (String.length arg =? 2)%nat then index + 1 else index)
             ((prog :: rev skipped) ++ rest)%list
             [Fprintf_stderr
                (prog ++ ": invalid option -- '" ++ option_char arg ++ "'")]
      else getopt_scan prog (arg :: skipped) rest' (index + 1)
  end.

(* The first call getopt_long (argc, argv, "", NULL, NULL) of the GNU C
   library without POSIXLY_CORRECT: operands are passed over, "--" ends
   the scan and is moved in front of them, and every option character is
   unknown, for which the call writes "invalid option" on stderr and
   returns '?' (63); with no option it writes nothing and returns -1. *)
Definition getopt_long_gnu (argv : list string) (optstring : string)
  : getopt_result :=
  match argv with
  | [] => mkGetopt (-1) 0 [] []
  | prog :: rest => getopt_scan prog [] rest 1
  end.

(* Values of a GNU/Linux x86-64 build. *)
#[export] Instance platform : Platform := {|
  O_DIRECT := 16384;
  O_DSYNC := 4096;
  O_SYNC := 1052672;
  O_RSYNC := 1052672;
  O_NOCACHE := 2;
  O_FULLBLOCK := 1;
  O_COUNT_BYTES := 4;
  O_SKIP_BYTES := 8;
  O_SEEK_BYTES := 16;
  flags :=
    [ mkSymbol "append" 1024;
      mkSymbol "direct" 16384;
      mkSymbol "directory" 65536;
      mkSymbol "dsync" 4096;
      mkSymbol "sync" 1052672;
      mkSymbol "fullblock" 1;
      mkSymbol "nonblock" 2048;
      mkSymbol "noatime" 262144;
      mkSymbol "nocache" 2;
      mkSymbol "noctty" 256;
      mkSymbol "nofollow" 131072;
      mkSymbol "count_bytes" 4;
      mkSymbol "skip_bytes" 8;
      mkSymbol "seek_bytes" 16;
      mkSymbol "" 0 ];
  statuses :=
    [ mkSymbol "none" 1;
      mkSymbol "noxfer" 2;
      mkSymbol "progress" 4;
      mkSymbol "" 0 ];
  MAX_BLOCKSIZE := fun slop => Z.min (SIZE_MAX - slop) (2 ^ 63 - 1);
  INPUT_BLOCK_SLOP := 8193;
  OUTPUT_BLOCK_SLOP := 4095;
  parse_symbols := parse_symbols_spec;
  parse_integer := parse_decimal;
  getopt_long := getopt_long_gnu;
  sysconf_SC_PAGESIZE := 4096
|}.

(* The start state of the reference build; 3 is GNU dd's default level. *)
Definition start : globals := initial_globals 3.

End Reference.

(** ** Reading the operand pass *)

(* The names the operand chain of [scanargs] tests for, in its order. *)
Inductive opname : Type :=
| Kif | Kof | Kconv | Kiflag | Koflag | Kstatus
| Kibs | Kobs | Kbs | Kcbs | Kskip | Kseek | Kcount.

Definition opname_string (k : opname) : string :=
  match k with
  | Kif => "if" | Kof => "of" | Kconv => "conv" | Kiflag => "iflag"
  | Koflag => "oflag" | Kstatus => "status" | Kibs => "ibs" | Kobs => "obs"
  | Kbs => "bs" | Kcbs => "cbs" | Kskip => "skip" | Kseek => "seek"
  | Kcount => "count"
  end.

(* conv, iflag and oflag are assigned with |=, the others with =. *)
Definition accumulates (k : opname) : bool :=
  match k with
  | Kconv | Kiflag | Koflag => true
  | _ => false
  end.

Inductive rawval : Type :=
| RPtr (p : charptr)
| RNum (z : Z).

(* The object an operand named [k] is stored in. *)
Definition raw_field (k : opname) (l : locals) (g : globals) : rawval :=
  match k with
  | Kif => RPtr (input_file g)
  | Kof => RPtr (output_file g)
  | Kconv => RNum (conversions_mask g)
  | Kiflag => RNum (input_flags g)
  | Koflag => RNum (output_flags g)
  | Kstatus => RNum (status_level g)
  | Kibs => RNum (input_blocksize g)
  | Kobs => RNum (output_blocksize g)
  | Kbs => RNum (blocksize l)
  | Kcbs => RNum (conversion_blocksize g)
  | Kskip => RNum (skip l)
  | Kseek => RNum (seek l)
  | Kcount => RNum (count l)
  end.

(* The bytes of an operand before its first '=' (all of it without one). *)
Fixpoint operand_key (s : string) : string :=
  match s with
  | EmptyString => EmptyString
  | String c s' =>
      if Ascii.eqb c "=" then EmptyString else String c (operand_key s')
  end.

Fixpoint no_delim (pattern : string) : bool :=
  match pattern with
  | EmptyString => true
  | String c pattern' => negb (Ascii.eqb c "=") && no_delim pattern'
  end.

(* [val] after [val++] in the loop body. *)
Definition operand_val (name : string) : charptr :=
  ptr_incr (strchr name "=").

(* The text after the first '='. *)
Definition operand_text (name : string) : string :=
  match operand_val name with
  | PStr v => v
  | _ => EmptyString
  end.

(* The last element of [args] that [operand_is] recognises as [name]. *)
Fixpoint last_operand (name : string) (args : list string) : option string :=
  match args with
  | [] => None
  | a :: rest =>
      match last_operand name rest with
      | Some b => Some b
      | None => if operand_is a name then Some a else None
      end
  end.

(* The part of the state the operand pass leaves alone. *)
Definition derived_part (g : globals) :=
  (optind g, page_size g,
   (skip_records g, skip_bytes g, seek_records g, seek_bytes g),
   (max_records g, max_bytes g),
   (warn_partial_read g, iread_fnc g, i_nocache g, o_nocache g)).

(* "At most one bit is set." *)
Definition at_most_one_bit (x : Z) : Prop :=
  forall i j, Z.testbit x i = true -> Z.testbit x j = true -> i = j.

Section Reading.

Context {P : Platform}.

(* The number an operand carries, as the last branch of the chain reads it. *)
Definition operand_number (name : string) : Z :=
  to_uintmax (fst (parse_integer (operand_text name))).

(* What an operand named [k] stores, when the iteration completes. *)
Definition operand_raw (k : opname) (name : string) : rawval :=
  match k with
  | Kif | Kof => RPtr (operand_val name)
  | Kconv =>
      RNum (match parse_symbols (operand_text name) conversions false
                    "invalid conversion" with
            | inl m => m | inr _ => 0 end)
  | Kiflag =>
      RNum (match parse_symbols (operand_text name) flags false
                    "invalid input flag" with
            | inl m => m | inr _ => 0 end)
  | Koflag =>
      RNum (match parse_symbols (operand_text name) flags false
                    "invalid output flag" with
            | inl m => m | inr _ => 0 end)
  | Kstatus =>
      RNum (match parse_symbols (operand_text name) statuses true
                    "invalid status level" with
            | inl m => m | inr _ => 0 end)
  | _ => RNum (operand_number name)
  end.

(* Bounds the chain puts on the number of an operand named [k]. *)
Definition number_min (k : opname) : Z :=
  match k with
  | Kibs | Kobs | Kbs | Kcbs => 1
  | _ => 0
  end.

Definition number_max (k : opname) : Z :=
  match k with
  | Kibs | Kbs => MAX_BLOCKSIZE INPUT_BLOCK_SLOP
  | Kobs => MAX_BLOCKSIZE OUTPUT_BLOCK_SLOP
  | Kcbs => SIZE_MAX
  | _ => UINTMAX_MAX
  end.

Definition is_number (k : opname) : bool :=
  match k with
  | Kibs | Kobs | Kbs | Kcbs | Kskip | Kseek | Kcount => true
  | _ => false
  end.

(* The five tests of lines 361-371. *)
Definition exclusive_ok (g : globals) : Prop :=
  multiple_bits_set
    (Z.land (conversions_mask g) (Z.lor (Z.lor C_ASCII C_EBCDIC) C_IBM))
  = false
  /\ multiple_bits_set (Z.land (conversions_mask g) (Z.lor C_BLOCK C_UNBLOCK))
     = false
  /\ multiple_bits_set (Z.land (conversions_mask g) (Z.lor C_LCASE C_UCASE))
     = false
  /\ multiple_bits_set (Z.land (conversions_mask g) (Z.lor C_EXCL C_NOCREAT))
     = false
  /\ multiple_bits_set (Z.land (input_flags g) (Z.lor O_DIRECT O_NOCACHE))
     = false
  /\ multiple_bits_set (Z.land (output_flags g) (Z.lor O_DIRECT O_NOCACHE))
     = false.

End Reading.

(* Computations that change nothing but the output. *)
Definition only_events (m : M unit) : Prop :=
  forall g g', m g = Returned tt g' -> exists ev, g' = set_events ev g.


(** * Proofs *)

Arguments operand_is : simpl never.
Arguments to_uintmax : simpl never.
Arguments String.append : simpl never.

(** ** The monad *)

Lemma bind_Returned {A B : Type} (m : M A) (k : A -> M B) g b g' :
  bind m k g = Returned b g' ->
  exists a g1, m g = Returned a g1 /\ k a g1 = Returned b g'.
Proof.
  unfold bind. destruct (m g) as [a g1 | |]; try discriminate.
  intros H. exists a, g1. split; [reflexivity | exact H].
Qed.

(** ** Operand names *)

Lemma operand_matches_key pattern :
  no_delim pattern = true ->
  forall str,
    operand_matches str pattern "=" = String.eqb (operand_key str) pattern.
Proof.
  induction pattern as [| q pattern IH]; intros Hp str.
  - destruct str as [| c str]; simpl; [reflexivity |].
    destruct (Ascii.eqb c "="); reflexivity.
  - simpl in Hp. apply andb_true_iff in Hp. destruct Hp as [Hq Hp].
    apply negb_true_iff in Hq.
    destruct str as [| c str]; simpl; [reflexivity |].
    destruct (Ascii.eqb_spec c q) as [-> | Hcq].
    + rewrite Hq. simpl. rewrite Ascii.eqb_refl. apply IH. exact Hp.
    + destruct (Ascii.eqb c "="); simpl; [reflexivity |].
      apply Ascii.eqb_neq in Hcq. rewrite Hcq. reflexivity.
Qed.

Lemma operand_is_key name pattern :
  no_delim pattern = true ->
  operand_is name pattern = String.eqb (operand_key name) pattern.
Proof. intros Hp. apply operand_matches_key. exact Hp. Qed.

Lemma operand_is_opname name k :
  operand_is name (opname_string k)
  = String.eqb (operand_key name) (opname_string k).
Proof. apply operand_is_key. destruct k; reflexivity. Qed.

(** ** One iteration of the loop *)

Ltac break_in H :=
  repeat (simpl in H;
    match type of H with
    | context [match ?x with _ => _ end] =>
        lazymatch x with
        | context [match _ with _ => _ end] => fail
        | _ => let E := fresh "E" in destruct x eqn:E
        end
    end; try discriminate H).

Ltac unfold_step H :=
  unfold scan_operand, scan_number, call_parse_symbols, deref, bind, error,
    usage, modify, ret, exit, undefined in H.

Ltac run_in H := unfold_step H; break_in H.

Lemma strtol_error_eqb_eq a b : strtol_error_eqb a b = true -> a = b.
Proof. destruct a, b; simpl; congruence. Qed.

Section Steps.
Context {P : Platform}.

Lemma scan_operand_frame name l g l' g' k :
  scan_operand name l g = Returned l' g' ->
  operand_is name (opname_string k) = false ->
  raw_field k l' g' = raw_field k l g.
Proof.
  intros H Hk.
  run_in H; injection H as <- <-;
    destruct k; simpl in Hk |- *; try reflexivity; congruence.
Qed.

Lemma scan_operand_derived name l g l' g' :
  scan_operand name l g = Returned l' g' ->
  derived_part g' = derived_part g.
Proof.
  intros H. run_in H; injection H as <- <-; reflexivity.
Qed.

Ltac use_eqns :=
  simpl;
  repeat match goal with
         | E : ?x = _ |- context [?x] => rewrite E; simpl
         end.

Ltac by_key H Hk :=
  apply String.eqb_eq in Hk;
  unfold_step H;
  rewrite !operand_is_key in H by reflexivity;
  rewrite Hk in H.

Lemma scan_operand_store name l g l' g' k :
  scan_operand name l g = Returned l' g' ->
  operand_is name (opname_string k) = true ->
  accumulates k = false ->
  raw_field k l' g' = operand_raw k name.
Proof.
  intros H Hk Hacc. rewrite operand_is_opname in Hk.
  unfold operand_raw, operand_number, operand_text, operand_val.
  destruct k; try discriminate Hacc; simpl in Hk |- *;
    by_key H Hk; break_in H; injection H as <- <-; use_eqns; reflexivity.
Qed.

Lemma scan_operand_accumulate name l g l' g' k :
  scan_operand name l g = Returned l' g' ->
  operand_is name (opname_string k) = true ->
  accumulates k = true ->
  exists old m,
    raw_field k l g = RNum old /\ operand_raw k name = RNum m
    /\ raw_field k l' g' = RNum (Z.lor old m).
Proof.
  intros H Hk Hacc. rewrite operand_is_opname in Hk.
  unfold operand_raw, operand_number, operand_text, operand_val.
  destruct k; try discriminate Hacc; simpl in Hk |- *;
    by_key H Hk; break_in H; injection H as <- <-; use_eqns;
    eexists; eexists; repeat split; reflexivity.
Qed.

Lemma scan_operand_number_ok name l g l' g' k :
  scan_operand name l g = Returned l' g' ->
  operand_is name (opname_string k) = true ->
  is_number k = true ->
  (exists v, operand_val name = PStr v)
  /\ snd (parse_integer (operand_text name)) = LONGINT_OK
  /\ number_min k <= operand_number name <= number_max k.
Proof.
  intros H Hk Hnum. rewrite operand_is_opname in Hk.
  unfold operand_number, operand_text, operand_val.
  destruct k; try discriminate Hnum; simpl in Hk |- *;
    by_key H Hk; break_in H; injection H as <- <-; use_eqns;
    (split; [eexists; reflexivity |]);
    repeat match goal with
           | E : negb _ = false |- _ => apply negb_false_iff in E
           | E : strtol_error_eqb _ _ = true |- _ =>
               apply strtol_error_eqb_eq in E
           | E : (_ <? _) = false |- _ => apply Z.ltb_ge in E
           end;
    (split; [assumption | split; assumption]).
Qed.

(* Whether an iteration completes does not depend on the state. *)
Lemma scan_operand_Returned_any name l g l' g' l0 g0 :
  scan_operand name l g = Returned l' g' ->
  exists l1 g1, scan_operand name l0 g0 = Returned l1 g1.
Proof.
  intros H. unfold_step H.
  unfold scan_operand, scan_number, call_parse_symbols, deref, bind, error,
    usage, modify, ret, exit, undefined.
  break_in H; use_eqns; eexists; eexists; reflexivity.
Qed.

(* A number below the minimum of its operand ends the process. *)
Lemma scan_operand_below_min name v l g k :
  operand_is name (opname_string k) = true ->
  is_number k = true ->
  operand_val name = PStr v ->
  to_uintmax (fst (parse_integer v)) < number_min k ->
  exists g1,
    scan_operand name l g = Exited EXIT_FAILURE g1
    /\ events g1
       = (events g ++ [Error_msg 0 ("invalid number: " ++ quote v)])%list.
Proof.
  intros Hk Hnum Hval Hlt. rewrite operand_is_opname in Hk.
  apply String.eqb_eq in Hk. apply Z.ltb_lt in Hlt.
  unfold operand_val in Hval.
  unfold scan_operand, scan_number, call_parse_symbols, deref, bind, error,
    usage, modify, ret, exit, undefined.
  rewrite !operand_is_key by reflexivity. rewrite Hk.
  destruct k; try discriminate Hnum; simpl in Hlt |- *;
    destruct (strchr name "=") as [| s |]; try discriminate Hval;
    simpl in Hval |- *; rewrite Hval; simpl; rewrite Hlt; simpl;
    eexists; (split; [reflexivity | reflexivity]).
Qed.

End Steps.

(** ** The loop over the operands *)

Section Loop.
Context {P : Platform}.

Lemma scan_operands_cons name rest l g l' g' :
  scan_operands (name :: rest) l g = Returned l' g' ->
  exists l1 g1,
    scan_operand name l g = Returned l1 g1
    /\ scan_operands rest l1 g1 = Returned l' g'.
Proof. intros H. apply bind_Returned in H. exact H. Qed.

Lemma scan_operands_app xs ys l g :
  scan_operands (xs ++ ys) l g
  = bind (scan_operands xs l) (fun l1 => scan_operands ys l1) g.
Proof.
  revert l g. induction xs as [| x xs IH]; intros l g; [reflexivity |].
  simpl. unfold bind in IH |- *.
  destruct (scan_operand x l g) as [l1 g1 | |]; [apply IH | |]; reflexivity.
Qed.

Lemma last_operand_Some name args a :
  last_operand name args = Some a ->
  In a args /\ operand_is a name = true.
Proof.
  induction args as [| b rest IH]; simpl; [discriminate |].
  destruct (last_operand name rest) as [c |].
  - intros [= ->]. destruct IH as [Hin Hop]; [reflexivity |]. auto.
  - destruct (operand_is b name) eqn:Hb; [| discriminate].
    intros [= ->]. auto.
Qed.

Lemma last_operand_None name args :
  last_operand name args = None ->
  forall a, In a args -> operand_is a name = false.
Proof.
  induction args as [| b rest IH]; simpl; [contradiction |].
  destruct (last_operand name rest) as [c |]; [discriminate |].
  destruct (operand_is b name) eqn:Hb; [discriminate |].
  intros _ a [<- | Hin]; [exact Hb | apply IH; [reflexivity | exact Hin]].
Qed.

Lemma last_operand_app name pre a post :
  operand_is a name = true ->
  last_operand name post = None ->
  last_operand name (pre ++ a :: post) = Some a.
Proof.
  intros Ha Hpost. induction pre as [| b pre IH]; simpl.
  - rewrite Hpost, Ha. reflexivity.
  - rewrite IH. reflexivity.
Qed.

Lemma scan_operands_untouched k args :
  forall l g l' g',
    scan_operands args l g = Returned l' g' ->
    last_operand (opname_string k) args = None ->
    raw_field k l' g' = raw_field k l g.
Proof.
  induction args as [| a rest IH]; intros l g l' g' H Hnone.
  - injection H as <- <-. reflexivity.
  - apply scan_operands_cons in H. destruct H as (l1 & g1 & Hstep & Hrest).
    simpl in Hnone.
    destruct (last_operand (opname_string k) rest) eqn:Hl; [discriminate |].
    destruct (operand_is a (opname_string k)) eqn:Ha; [discriminate |].
    rewrite (IH _ _ _ _ Hrest eq_refl).
    exact (scan_operand_frame _ _ _ _ _ _ Hstep Ha).
Qed.

Lemma scan_operands_last k args :
  accumulates k = false ->
  forall l g l' g' a,
    scan_operands args l g = Returned l' g' ->
    last_operand (opname_string k) args = Some a ->
    raw_field k l' g' = operand_raw k a.
Proof.
  intros Hacc.
  induction args as [| b rest IH]; intros l g l' g' a H Hlast;
    [discriminate |].
  apply scan_operands_cons in H. destruct H as (l1 & g1 & Hstep & Hrest).
  simpl in Hlast.
  destruct (last_operand (opname_string k) rest) as [c |] eqn:Hl.
  - injection Hlast as ->. exact (IH _ _ _ _ _ Hrest eq_refl).
  - destruct (operand_is b (opname_string k)) eqn:Hb; [| discriminate].
    injection Hlast as ->.
    rewrite (scan_operands_untouched _ _ _ _ _ _ Hrest Hl).
    exact (scan_operand_store _ _ _ _ _ _ Hstep Hb Hacc).
Qed.

Lemma scan_operands_derived args :
  forall l g l' g',
    scan_operands args l g = Returned l' g' ->
    derived_part g' = derived_part g.
Proof.
  induction args as [| a rest IH]; intros l g l' g' H.
  - injection H as <- <-. reflexivity.
  - apply scan_operands_cons in H. destruct H as (l1 & g1 & Hstep & Hrest).
    rewrite (IH _ _ _ _ Hrest). exact (scan_operand_derived _ _ _ _ _ Hstep).
Qed.

(* Every operand of a completed pass completed its own iteration. *)
Lemma scan_operands_In args :
  forall l g l' g' a,
    scan_operands args l g = Returned l' g' ->
    In a args ->
    exists l1 g1 l2 g2, scan_operand a l1 g1 = Returned l2 g2.
Proof.
  induction args as [| b rest IH]; intros l g l' g' a H Hin;
    [contradiction |].
  apply scan_operands_cons in H. destruct H as (l1 & g1 & Hstep & Hrest).
  destruct Hin as [<- | Hin].
  - exists l, g, l1, g1. exact Hstep.
  - exact (IH _ _ _ _ _ Hrest Hin).
Qed.

Lemma scan_operands_number_ok args l g l' g' a k :
  scan_operands args l g = Returned l' g' ->
  In a args ->
  operand_is a (opname_string k) = true ->
  is_number k = true ->
  number_min k <= operand_number a <= number_max k.
Proof.
  intros H Hin Hop Hnum.
  destruct (scan_operands_In _ _ _ _ _ _ H Hin) as (l1 & g1 & l2 & g2 & Hs).
  apply (scan_operand_number_ok _ _ _ _ _ _ Hs Hop Hnum).
Qed.

Lemma operand_number_nonneg name : 0 <= operand_number name.
Proof.
  unfold operand_number, to_uintmax. apply Z.mod_pos_bound. reflexivity.
Qed.

(* A number field holds its start value or the number of an operand. *)
Lemma scan_operands_number_field k args l g l' g' :
  is_number k = true ->
  scan_operands args l g = Returned l' g' ->
  raw_field k l' g' = raw_field k l g
  \/ exists a,
       last_operand (opname_string k) args = Some a
       /\ raw_field k l' g' = RNum (operand_number a)
       /\ number_min k <= operand_number a <= number_max k.
Proof.
  intros Hnum H.
  destruct (last_operand (opname_string k) args) as [a |] eqn:Hl.
  - right. exists a. split; [reflexivity |].
    destruct (last_operand_Some _ _ _ Hl) as [Hin Hop].
    split.
    + rewrite (scan_operands_last k args) with (a := a) (l := l) (g := g);
        [| destruct k; try discriminate Hnum; reflexivity | exact H
         | exact Hl].
      destruct k; try discriminate Hnum; reflexivity.
    + exact (scan_operands_number_ok _ _ _ _ _ _ _ H Hin Hop Hnum).
  - left. exact (scan_operands_untouched _ _ _ _ _ _ H Hl).
Qed.

End Loop.

(** ** Bit masks *)

Lemma land_zero_bits a b :
  Z.land a b = 0 -> forall n, Z.testbit a n && Z.testbit b n = false.
Proof.
  intros H n. rewrite <- Z.land_spec, H. apply Z.bits_0.
Qed.

(* Clearing the bits of [x] leaves the bits of a disjoint [s] as they are. *)
Lemma land_clear_disjoint f x s :
  Z.land s x = 0 -> Z.land (Z.land f (Z.lnot x)) s = Z.land f s.
Proof.
  intros H. apply Z.bits_inj'. intros n Hn.
  rewrite !Z.land_spec, Z.lnot_spec by exact Hn.
  pose proof (land_zero_bits _ _ H n) as Hb.
  destruct (Z.testbit f n), (Z.testbit x n), (Z.testbit s n);
    simpl in *; congruence.
Qed.

Lemma land_clear_same f x : Z.land (Z.land f (Z.lnot x)) x = 0.
Proof.
  rewrite <- Z.land_assoc, (Z.land_comm (Z.lnot x)), Z.land_lnot_diag.
  apply Z.land_0_r.
Qed.

Lemma land_lor_same m t : Z.land (Z.lor m t) t = t.
Proof.
  apply Z.bits_inj'. intros n _. rewrite Z.land_spec, Z.lor_spec.
  destruct (Z.testbit m n), (Z.testbit t n); reflexivity.
Qed.

Lemma nonzero_true z : nonzero z = true <-> z <> 0.
Proof.
  unfold nonzero. rewrite negb_true_iff, Z.eqb_neq. reflexivity.
Qed.

Lemma nonzero_false z : nonzero z = false <-> z = 0.
Proof.
  unfold nonzero. rewrite negb_false_iff, Z.eqb_eq. reflexivity.
Qed.

(* A number that shares no bit with its predecessor is 0 or a power of 2. *)
Lemma land_pred_zero x :
  Z.land x (x - 1) = 0 -> x = 0 \/ exists k, 0 <= k /\ x = 2 ^ k.
Proof.
  intros H.
  destruct (Z.lt_trichotomy x 0) as [Hneg | [-> | Hpos]].
  - exfalso.
    assert (Hl : Z.land x (x - 1) < 0) by (apply Z.land_neg; lia).
    lia.
  - left. reflexivity.
  - right. exists (Z.log2 x).
    pose proof (Z.log2_nonneg x) as Hk. split; [exact Hk |].
    destruct (Z.log2_spec x Hpos) as [Hlo Hhi].
    destruct (Z.eq_dec x (2 ^ Z.log2 x)) as [Heq | Hne]; [exact Heq |].
    exfalso.
    assert (Hlog : Z.log2 (x - 1) = Z.log2 x).
    { apply Z.log2_unique; [exact Hk | lia]. }
    assert (Hbit : Z.testbit (Z.land x (x - 1)) (Z.log2 x) = true).
    { rewrite Z.land_spec, Z.bit_log2 by exact Hpos.
      rewrite <- Hlog. rewrite Z.bit_log2; [reflexivity |].
      assert (0 < 2 ^ Z.log2 x) by (apply Z.pow_pos_nonneg; lia). lia. }
    rewrite H, Z.bits_0 in Hbit. discriminate.
Qed.

Lemma pow2_land_pred k : 0 <= k -> Z.land (2 ^ k) (2 ^ k - 1) = 0.
Proof.
  intros Hk. rewrite Z.sub_1_r, <- Z.ones_equiv, Z.land_ones by exact Hk.
  apply Z.mod_same. apply Z.pow_nonzero; lia.
Qed.

Lemma at_most_one_bit_cases x :
  at_most_one_bit x <-> x = 0 \/ exists k, 0 <= k /\ x = 2 ^ k.
Proof.
  split.
  - intros H.
    destruct (Z.lt_trichotomy x 0) as [Hneg | [-> | Hpos]].
    + exfalso.
      set (n := Z.succ (Z.log2 (Z.abs x))).
      assert (H1 : Z.testbit x n = true)
        by (apply (Z.bits_iff_neg x n); [unfold n; lia | exact Hneg]).
      assert (H2 : Z.testbit x (Z.succ n) = true)
        by (apply (Z.bits_iff_neg x (Z.succ n)); [unfold n; lia | exact Hneg]).
      specialize (H _ _ H1 H2). lia.
    + left. reflexivity.
    + right. exists (Z.log2 x).
      pose proof (Z.log2_nonneg x) as Hk. split; [exact Hk |].
      apply Z.bits_inj'. intros n Hn.
      rewrite Z.pow2_bits_eqb by exact Hk.
      destruct (Z.eqb_spec (Z.log2 x) n) as [<- | Hne].
      * apply Z.bit_log2. exact Hpos.
      * destruct (Z.testbit x n) eqn:Hb; [| reflexivity].
        exfalso. apply Hne. symmetry.
        apply (H n (Z.log2 x) Hb). apply Z.bit_log2. exact Hpos.
  - intros [-> | (k & Hk & ->)] i j Hi Hj.
    + rewrite Z.bits_0 in Hi. discriminate.
    + destruct (Z.neg_nonneg_cases i) as [Hin | Hin];
        [rewrite Z.testbit_neg_r in Hi by exact Hin; discriminate |].
      rewrite Z.pow2_bits_eqb in Hi, Hj by exact Hk.
      apply Z.eqb_eq in Hi, Hj. congruence.
Qed.

Lemma multiple_bits_set_false x :
  multiple_bits_set x = false <-> at_most_one_bit x.
Proof.
  unfold multiple_bits_set. rewrite negb_false_iff, Z.eqb_eq.
  rewrite at_most_one_bit_cases. split.
  - apply land_pred_zero.
  - intros [-> | (k & Hk & ->)]; [reflexivity | apply pow2_land_pred, Hk].
Qed.

Lemma at_most_one_bit_subset x y :
  at_most_one_bit x ->
  (forall n, Z.testbit y n = true -> Z.testbit x n = true) ->
  at_most_one_bit y.
Proof. intros Hx Hsub i j Hi Hj. apply Hx; apply Hsub; assumption. Qed.

Lemma at_most_one_bit_clear f x group :
  at_most_one_bit (Z.land f group) ->
  at_most_one_bit (Z.land (Z.land f (Z.lnot x)) group).
Proof.
  intros H. apply (at_most_one_bit_subset _ _ H). intros n.
  destruct (Z.neg_nonneg_cases n) as [Hn | Hn];
    [rewrite Z.testbit_neg_r by exact Hn; discriminate |].
  rewrite !Z.land_spec, Z.lnot_spec by exact Hn.
  destruct (Z.testbit f n), (Z.testbit group n), (Z.testbit x n);
    simpl; congruence.
Qed.

(** ** The resolver *)

(* Projections of updated records. *)
Ltac fields :=
  cbn [optind page_size input_file output_file input_blocksize
       output_blocksize conversion_blocksize skip_records skip_bytes
       seek_records seek_bytes max_records max_bytes conversions_mask
       input_flags output_flags status_level warn_partial_read iread_fnc
       i_nocache o_nocache events
       set_optind set_page_size set_input_file set_output_file
       set_input_blocksize set_output_blocksize set_conversion_blocksize
       set_skip_records set_skip_bytes set_seek_records set_seek_bytes
       set_max_records set_max_bytes set_conversions_mask set_input_flags
       set_output_flags set_status_level set_warn_partial_read set_iread_fnc
       set_i_nocache set_o_nocache set_events log].

Ltac break_goal :=
  repeat (fields;
    match goal with
    | E : ?c = _ |- context [if ?c then _ else _] => rewrite E
    | |- context [if ?c then _ else _] =>
        lazymatch c with
        | context [if _ then _ else _] => fail
        | _ => let E := fresh "E" in destruct c eqn:E
        end
    end);
  fields.

Section Resolver.
Context {P : Platform}.

(* Each assignment block, as one update per variable it can change. *)
Lemma resolve_blocksizes_eq l g :
  resolve_blocksizes l g
  = set_input_flags
      (if nonzero (Z.land (input_flags g) (Z.lor O_DSYNC O_SYNC))
       then Z.lor (input_flags g) O_RSYNC else input_flags g)
      (set_conversions_mask
         (let m := if nonzero (blocksize l) then conversions_mask g
                   else Z.lor (conversions_mask g) C_TWOBUFS in
          if conversion_blocksize g =? 0
          then Z.land m (Z.lnot (Z.lor C_BLOCK C_UNBLOCK)) else m)
         (set_output_blocksize
            (if nonzero (blocksize l) then blocksize l
             else if output_blocksize g =? 0 then DEFAULT_BLOCKSIZE
                  else output_blocksize g)
            (set_input_blocksize
               (if nonzero (blocksize l) then blocksize l
                else if input_blocksize g =? 0 then DEFAULT_BLOCKSIZE
                     else input_blocksize g) g))).
Proof.
  unfold resolve_blocksizes, nonzero. destruct g.
  destruct (blocksize l =? 0) eqn:Hb; cbn [negb]; break_goal;
    try rewrite Hb in *; try discriminate; reflexivity.
Qed.

Lemma derive_offsets_eq l g :
  derive_offsets l g
  = set_seek_bytes
      (if nonzero (Z.land (output_flags g) O_SEEK_BYTES) && nonzero (seek l)
       then seek l mod output_blocksize g else seek_bytes g)
      (set_seek_records
         (if nonzero (Z.land (output_flags g) O_SEEK_BYTES)
             && nonzero (seek l)
          then seek l / output_blocksize g
          else if nonzero (seek l) then seek l else seek_records g)
         (set_max_bytes
            (if nonzero (Z.land (input_flags g) O_COUNT_BYTES)
                && negb (count l =? UINTMAX_MAX)
             then count l mod input_blocksize g else max_bytes g)
            (set_max_records
               (if nonzero (Z.land (input_flags g) O_COUNT_BYTES)
                   && negb (count l =? UINTMAX_MAX)
                then count l / input_blocksize g
                else if negb (count l =? UINTMAX_MAX) then count l
                     else max_records g)
               (set_skip_bytes
                  (if nonzero (Z.land (input_flags g) O_SKIP_BYTES)
                      && nonzero (skip l)
                   then skip l mod input_blocksize g else skip_bytes g)
                  (set_skip_records
                     (if nonzero (Z.land (input_flags g) O_SKIP_BYTES)
                         && nonzero (skip l)
                      then skip l / input_blocksize g
                      else if nonzero (skip l) then skip l
                           else skip_records g) g))))).
Proof.
  unfold derive_offsets. destruct g. break_goal; reflexivity.
Qed.

Lemma extract_nocache_eq g :
  extract_nocache g
  = set_o_nocache
      (if nonzero (Z.land (output_flags g) O_NOCACHE) then true
       else o_nocache g)
      (set_output_flags
         (if nonzero (Z.land (output_flags g) O_NOCACHE)
          then Z.land (output_flags g) (Z.lnot O_NOCACHE)
          else output_flags g)
         (set_i_nocache
            (if nonzero (Z.land (input_flags g) O_NOCACHE) then true
             else i_nocache g)
            (set_input_flags
               (if nonzero (Z.land (input_flags g) O_NOCACHE)
                then Z.land (input_flags g) (Z.lnot O_NOCACHE)
                else input_flags g) g))).
Proof.
  unfold extract_nocache. destruct g. break_goal; reflexivity.
Qed.

(* The variables each block leaves alone, and what it stores in the
   others. *)
Lemma resolve_blocksizes_fields l g :
  let r := resolve_blocksizes l g in
  input_blocksize r
  = (if nonzero (blocksize l) then blocksize l
     else if input_blocksize g =? 0 then DEFAULT_BLOCKSIZE
          else input_blocksize g)
  /\ output_blocksize r
     = (if nonzero (blocksize l) then blocksize l
        else if output_blocksize g =? 0 then DEFAULT_BLOCKSIZE
             else output_blocksize g)
  /\ conversion_blocksize r = conversion_blocksize g
  /\ conversions_mask r
     = (if conversion_blocksize g =? 0
        then Z.land (if nonzero (blocksize l) then conversions_mask g
                     else Z.lor (conversions_mask g) C_TWOBUFS)
               (Z.lnot (Z.lor C_BLOCK C_UNBLOCK))
        else if nonzero (blocksize l) then conversions_mask g
             else Z.lor (conversions_mask g) C_TWOBUFS)
  /\ input_flags r
     = (if nonzero (Z.land (input_flags g) (Z.lor O_DSYNC O_SYNC))
        then Z.lor (input_flags g) O_RSYNC else input_flags g)
  /\ output_flags r = output_flags g
  /\ skip_records r = skip_records g
  /\ skip_bytes r = skip_bytes g
  /\ max_records r = max_records g
  /\ max_bytes r = max_bytes g
  /\ i_nocache r = i_nocache g
  /\ o_nocache r = o_nocache g.
Proof.
  cbv zeta. rewrite resolve_blocksizes_eq. repeat split; reflexivity.
Qed.

Lemma set_events_fields ev g :
  let r := set_events ev g in
  input_blocksize r = input_blocksize g
  /\ output_blocksize r = output_blocksize g
  /\ conversion_blocksize r = conversion_blocksize g
  /\ conversions_mask r = conversions_mask g
  /\ input_flags r = input_flags g
  /\ output_flags r = output_flags g
  /\ skip_records r = skip_records g
  /\ skip_bytes r = skip_bytes g
  /\ max_records r = max_records g
  /\ max_bytes r = max_bytes g
  /\ i_nocache r = i_nocache g
  /\ o_nocache r = o_nocache g.
Proof. cbv zeta. repeat split; reflexivity. Qed.

Lemma derive_offsets_fields l g :
  let d := derive_offsets l g in
  input_blocksize d = input_blocksize g
  /\ output_blocksize d = output_blocksize g
  /\ conversion_blocksize d = conversion_blocksize g
  /\ conversions_mask d = conversions_mask g
  /\ input_flags d = input_flags g
  /\ output_flags d = output_flags g
  /\ skip_records d
     = (if nonzero (Z.land (input_flags g) O_SKIP_BYTES) && nonzero (skip l)
        then skip l / input_blocksize g
        else if nonzero (skip l) then skip l else skip_records g)
  /\ skip_bytes d
     = (if nonzero (Z.land (input_flags g) O_SKIP_BYTES) && nonzero (skip l)
        then skip l mod input_blocksize g else skip_bytes g)
  /\ max_records d
     = (if nonzero (Z.land (input_flags g) O_COUNT_BYTES)
           && negb (count l =? UINTMAX_MAX)
        then count l / input_blocksize g
        else if negb (count l =? UINTMAX_MAX) then count l
             else max_records g)
  /\ max_bytes d
     = (if nonzero (Z.land (input_flags g) O_COUNT_BYTES)
           && negb (count l =? UINTMAX_MAX)
        then count l mod input_blocksize g else max_bytes g)
  /\ i_nocache d = i_nocache g
  /\ o_nocache d = o_nocache g.
Proof.
  cbv zeta. rewrite derive_offsets_eq. repeat split; reflexivity.
Qed.

Lemma choose_read_strategy_fields g :
  let c := choose_read_strategy g in
  input_blocksize c = input_blocksize g
  /\ output_blocksize c = output_blocksize g
  /\ conversion_blocksize c = conversion_blocksize g
  /\ conversions_mask c = conversions_mask g
  /\ input_flags c = Z.land (input_flags g) (Z.lnot O_FULLBLOCK)
  /\ output_flags c = output_flags g
  /\ skip_records c = skip_records g
  /\ skip_bytes c = skip_bytes g
  /\ max_records c = max_records g
  /\ max_bytes c = max_bytes g
  /\ i_nocache c = i_nocache g
  /\ o_nocache c = o_nocache g
  /\ warn_partial_read c
     = (negb (nonzero (Z.land (conversions_mask g) C_TWOBUFS))
        && negb (nonzero (Z.land (input_flags g) O_FULLBLOCK))
        && (nonzero (skip_records g)
            || ((0 <? max_records g) && (max_records g <? UINTMAX_MAX))
            || nonzero (Z.land (Z.lor (input_flags g) (output_flags g))
                          O_DIRECT)))
  /\ iread_fnc c
     = (if nonzero (Z.land (input_flags g) O_FULLBLOCK)
        then iread_fullblock else iread).
Proof.
  cbv zeta. unfold choose_read_strategy. repeat split; reflexivity.
Qed.

Lemma extract_nocache_fields g :
  let s := extract_nocache g in
  input_blocksize s = input_blocksize g
  /\ output_blocksize s = output_blocksize g
  /\ conversion_blocksize s = conversion_blocksize g
  /\ conversions_mask s = conversions_mask g
  /\ input_flags s
     = (if nonzero (Z.land (input_flags g) O_NOCACHE)
        then Z.land (input_flags g) (Z.lnot O_NOCACHE) else input_flags g)
  /\ output_flags s
     = (if nonzero (Z.land (output_flags g) O_NOCACHE)
        then Z.land (output_flags g) (Z.lnot O_NOCACHE) else output_flags g)
  /\ skip_records s = skip_records g
  /\ skip_bytes s = skip_bytes g
  /\ max_records s = max_records g
  /\ max_bytes s = max_bytes g
  /\ i_nocache s
     = (if nonzero (Z.land (input_flags g) O_NOCACHE) then true
        else i_nocache g)
  /\ o_nocache s
     = (if nonzero (Z.land (output_flags g) O_NOCACHE) then true
        else o_nocache g)
  /\ warn_partial_read s = warn_partial_read g
  /\ iread_fnc s = iread_fnc g.
Proof.
  cbv zeta. rewrite extract_nocache_eq. repeat split; reflexivity.
Qed.

Lemma only_events_bind (m k : M unit) :
  only_events m -> only_events k -> only_events (m;; k).
Proof.
  intros Hm Hk g g' H. apply bind_Returned in H.
  destruct H as ([] & g1 & H1 & H2).
  destruct (Hm _ _ H1) as [ev1 ->]. destruct (Hk _ _ H2) as [ev2 ->].
  exists ev2. reflexivity.
Qed.

Lemma only_events_when c (m : M unit) :
  only_events m -> only_events (when_ c m).
Proof.
  intros Hm g g' H. unfold when_ in H. destruct (c g).
  - exact (Hm _ _ H).
  - injection H as <-. exists (events g). destruct g. reflexivity.
Qed.

Lemma only_events_diagnostic msg :
  only_events (error 0 0 msg;; usage EXIT_FAILURE).
Proof.
  intros g g' H. injection H as <-. eexists. reflexivity.
Qed.

(* The placement checks only write diagnostics. *)
Lemma check_flag_placement_Returned g g' :
  check_flag_placement g = Returned tt g' ->
  exists ev, g' = set_events ev g.
Proof.
  apply only_events_bind;
    [| apply only_events_bind ];
    apply only_events_when; try apply only_events_diagnostic.
  intros g1 g2 H.
  exact (only_events_diagnostic _ g1 g2 H).
Qed.

Lemma check_exclusive_Returned g g' :
  check_exclusive g = Returned tt g' -> g' = g /\ exclusive_ok g.
Proof.
  unfold check_exclusive, exclusive_ok, when_, bind, error, modify, ret, exit.
  intros H.
  destruct (multiple_bits_set
              (Z.land (conversions_mask g)
                 (Z.lor (Z.lor C_ASCII C_EBCDIC) C_IBM))) eqn:E1;
    [discriminate H |].
  destruct (multiple_bits_set
              (Z.land (conversions_mask g) (Z.lor C_BLOCK C_UNBLOCK))) eqn:E2;
    [discriminate H |].
  destruct (multiple_bits_set
              (Z.land (conversions_mask g) (Z.lor C_LCASE C_UCASE))) eqn:E3;
    [discriminate H |].
  destruct (multiple_bits_set
              (Z.land (conversions_mask g) (Z.lor C_EXCL C_NOCREAT))) eqn:E4;
    [discriminate H |].
  destruct (multiple_bits_set
              (Z.land (input_flags g) (Z.lor O_DIRECT O_NOCACHE))) eqn:E5;
    [discriminate H |].
  destruct (multiple_bits_set
              (Z.land (output_flags g) (Z.lor O_DIRECT O_NOCACHE))) eqn:E6;
    [discriminate H |].
  simpl in H. injection H as <-. repeat split; reflexivity.
Qed.

(* What a completed call of [scanargs] went through. *)
Lemma scanargs_Returned argv g0 s :
  scanargs argv g0 = Returned tt s ->
  exists l1 g1 ev,
    scan_operands (operands argv g0) initial_locals g0 = Returned l1 g1
    /\ let s1 := choose_read_strategy
                   (derive_offsets l1
                      (set_events ev (resolve_blocksizes l1 g1))) in
       resolve_fields (operands argv g0) g0 = Returned tt s1
       /\ exclusive_ok s1
       /\ s = extract_nocache s1.
Proof.
  unfold scanargs. intros H.
  apply bind_Returned in H. destruct H as ([] & s1 & Hfields & H).
  apply bind_Returned in H. destruct H as ([] & s2 & Hexcl & H).
  apply check_exclusive_Returned in Hexcl. destruct Hexcl as [-> Hok].
  injection H as <-.
  pose proof Hfields as Hf. unfold resolve_fields in Hf.
  apply bind_Returned in Hf. destruct Hf as (l1 & g1 & Hscan & Hf).
  apply bind_Returned in Hf. destruct Hf as ([] & r & Hr & Hf).
  injection Hr as <-.
  apply bind_Returned in Hf. destruct Hf as ([] & p & Hp & Hf).
  apply check_flag_placement_Returned in Hp. destruct Hp as [ev ->].
  apply bind_Returned in Hf. destruct Hf as ([] & d & Hd & Hf).
  injection Hd as <-. injection Hf as <-.
  exists l1, g1, ev. split; [exact Hscan |].
  cbv zeta. split; [exact Hfields | split; [exact Hok | reflexivity]].
Qed.

End Resolver.

(** ** Properties of the specification *)

(* Rewrite with every equation of a conjunction. *)
Ltac use_conj H :=
  cbv zeta in H;
  repeat match type of H with
         | _ /\ _ =>
             let E := fresh "E" in
             destruct H as [E H]; rewrite ?E in *; clear E
         end;
  rewrite ?H in *; clear H.

(* The fields of the final state, written over the state after the pass. *)
Ltac plan_fields l g ev :=
  let H := fresh "H" in
  pose proof (extract_nocache_fields
                (choose_read_strategy
                   (derive_offsets l
                      (set_events ev (resolve_blocksizes l g))))) as H;
  use_conj H;
  pose proof (choose_read_strategy_fields
                (derive_offsets l
                   (set_events ev (resolve_blocksizes l g)))) as H;
  use_conj H;
  pose proof (derive_offsets_fields l
                (set_events ev (resolve_blocksizes l g))) as H;
  use_conj H;
  pose proof (set_events_fields ev (resolve_blocksizes l g)) as H;
  use_conj H;
  pose proof (resolve_blocksizes_fields l g) as H;
  use_conj H.

Lemma RNum_inj a b : RNum a = RNum b -> a = b.
Proof. intros [= ->]. reflexivity. Qed.

Section Properties.
Context {P : Platform}.

(* The local [blocksize] after the pass. *)
Lemma blocksize_after_pass args g0 l1 g1 :
  scan_operands args initial_locals g0 = Returned l1 g1 ->
  match last_operand "bs" args with
  | Some a => blocksize l1 = operand_number a /\ 1 <= operand_number a
  | None => blocksize l1 = 0
  end.
Proof.
  intros H.
  destruct (last_operand "bs" args) as [a |] eqn:Hl.
  - pose proof (scan_operands_last Kbs args eq_refl _ _ _ _ _ H Hl) as Hf.
    apply RNum_inj in Hf.
    destruct (last_operand_Some _ _ _ Hl) as [Hin Hop].
    pose proof (scan_operands_number_ok _ _ _ _ _ _ Kbs H Hin Hop eq_refl)
      as [Hmin _].
    split; [exact Hf | exact Hmin].
  - pose proof (scan_operands_untouched Kbs args _ _ _ _ H Hl) as Hf.
    apply RNum_inj in Hf. exact Hf.
Qed.

(** C3. In a run of [scanargs] that completes: when the last [bs] operand
    carries the number N, both block sizes are N at the end and the
    C_TWOBUFS bit of the final mask is the bit the operand pass left (so it
    is the start value's bit when there is no [conv] operand); without a
    [bs] operand the C_TWOBUFS bit of the final mask is set. *)
Theorem bs_wins_else_twobufs (argv : list string) (g0 s : globals) :
  scanargs argv g0 = Returned tt s ->
  (forall a,
      last_operand "bs" (operands argv g0) = Some a ->
      input_blocksize s = operand_number a
      /\ output_blocksize s = operand_number a
      /\ (exists l1 g1,
             scan_operands (operands argv g0) initial_locals g0
             = Returned l1 g1
             /\ Z.land (conversions_mask s) C_TWOBUFS
                = Z.land (conversions_mask g1) C_TWOBUFS)
      /\ (last_operand "conv" (operands argv g0) = None ->
          Z.land (conversions_mask s) C_TWOBUFS
          = Z.land (conversions_mask g0) C_TWOBUFS))
  /\ (last_operand "bs" (operands argv g0) = None ->
      Z.land (conversions_mask s) C_TWOBUFS = C_TWOBUFS).
Proof.
  intros H.
  destruct (scanargs_Returned _ _ _ H) as (l1 & g1 & ev & Hscan & Hs).
  cbv zeta in Hs. destruct Hs as (_ & _ & ->). clear H.
  pose proof (blocksize_after_pass _ _ _ _ Hscan) as Hbs.
  assert (Hmask : forall m,
             Z.land (if conversion_blocksize g1 =? 0
                     then Z.land m (Z.lnot (Z.lor C_BLOCK C_UNBLOCK)) else m)
               C_TWOBUFS = Z.land m C_TWOBUFS).
  { intros m. destruct (conversion_blocksize g1 =? 0); [| reflexivity].
    apply land_clear_disjoint. reflexivity. }
  plan_fields l1 g1 ev.
  split.
  - intros a Ha. rewrite Ha in Hbs. destruct Hbs as [Hb Hmin].
    assert (Hnz : nonzero (blocksize l1) = true)
      by (apply nonzero_true; lia).
    rewrite Hnz.
    split; [exact Hb | split; [exact Hb | split]].
    + exists l1, g1. split; [exact Hscan |]. apply Hmask.
    + intros Hconv. rewrite Hmask.
      pose proof (scan_operands_untouched Kconv _ _ _ _ _ Hscan Hconv) as Hf.
      apply RNum_inj in Hf. rewrite Hf. reflexivity.
  - intros Hnone. rewrite Hnone in Hbs. rewrite Hbs.
    change (nonzero 0) with false. cbv iota. rewrite Hmask.
    exact (land_lor_same (conversions_mask g1) C_TWOBUFS).
Qed.

(* A number field after the pass is not negative when it was not at the
   start. *)
Lemma number_field_nonneg k args l g l' g' z0 z :
  is_number k = true ->
  scan_operands args l g = Returned l' g' ->
  raw_field k l g = RNum z0 -> 0 <= z0 ->
  raw_field k l' g' = RNum z ->
  0 <= z /\ (z = z0 \/ number_min k <= z).
Proof.
  intros Hnum H H0 Hz0 Hz.
  destruct (scan_operands_number_field k _ _ _ _ _ Hnum H)
    as [Hsame | (a & _ & Ha & Hmin & _)].
  - rewrite Hsame, H0 in Hz. apply RNum_inj in Hz. subst z. auto.
  - rewrite Ha in Hz. apply RNum_inj in Hz. subst z.
    split; [apply operand_number_nonneg | right; exact Hmin].
Qed.

(* The input block size the resolver settles on is at least 1. *)
Lemma resolved_input_blocksize args g0 l1 g1 :
  scan_operands args initial_locals g0 = Returned l1 g1 ->
  0 <= input_blocksize g0 ->
  1 <= (if nonzero (blocksize l1) then blocksize l1
        else if input_blocksize g1 =? 0 then DEFAULT_BLOCKSIZE
             else input_blocksize g1).
Proof.
  intros Hscan H0.
  pose proof (blocksize_after_pass _ _ _ _ Hscan) as Hbs.
  destruct (number_field_nonneg Kibs _ _ _ _ _ _ _ eq_refl Hscan eq_refl H0
              eq_refl) as [H1 H2].
  unfold nonzero, DEFAULT_BLOCKSIZE.
  destruct (last_operand "bs" args);
    destruct (Z.eqb_spec (blocksize l1) 0); cbn [negb];
    destruct (Z.eqb_spec (input_blocksize g1) 0); lia.
Qed.

Lemma resolved_output_blocksize args g0 l1 g1 :
  scan_operands args initial_locals g0 = Returned l1 g1 ->
  0 <= output_blocksize g0 ->
  1 <= (if nonzero (blocksize l1) then blocksize l1
        else if output_blocksize g1 =? 0 then DEFAULT_BLOCKSIZE
             else output_blocksize g1).
Proof.
  intros Hscan H0.
  pose proof (blocksize_after_pass _ _ _ _ Hscan) as Hbs.
  destruct (number_field_nonneg Kobs _ _ _ _ _ _ _ eq_refl Hscan eq_refl H0
              eq_refl) as [H1 H2].
  unfold nonzero, DEFAULT_BLOCKSIZE.
  destruct (last_operand "bs" args);
    destruct (Z.eqb_spec (blocksize l1) 0); cbn [negb];
    destruct (Z.eqb_spec (output_blocksize g1) 0); lia.
Qed.

(** C6. In a run of [scanargs] that completes from a state whose block
    sizes are not negative, both block sizes are at least 1 at the end;
    every [ibs], [obs] and [bs] operand of the run carries a number of at
    least 1; and a block size that is 0 at the start and has no operand
    ([ibs] or [obs], and no [bs]) ends as [DEFAULT_BLOCKSIZE]. *)
Theorem block_sizes_at_least_one (argv : list string) (g0 s : globals) :
  scanargs argv g0 = Returned tt s ->
  0 <= input_blocksize g0 ->
  0 <= output_blocksize g0 ->
  (1 <= input_blocksize s /\ 1 <= output_blocksize s)
  /\ (forall a,
         In a (operands argv g0) ->
         operand_is a "ibs" = true \/ operand_is a "obs" = true
         \/ operand_is a "bs" = true ->
         1 <= operand_number a)
  /\ (last_operand "bs" (operands argv g0) = None ->
      last_operand "ibs" (operands argv g0) = None ->
      input_blocksize g0 = 0 ->
      input_blocksize s = DEFAULT_BLOCKSIZE)
  /\ (last_operand "bs" (operands argv g0) = None ->
      last_operand "obs" (operands argv g0) = None ->
      output_blocksize g0 = 0 ->
      output_blocksize s = DEFAULT_BLOCKSIZE).
Proof.
  intros H Hi0 Ho0.
  destruct (scanargs_Returned _ _ _ H) as (l1 & g1 & ev & Hscan & Hs).
  cbv zeta in Hs. destruct Hs as (_ & _ & ->). clear H.
  pose proof (blocksize_after_pass _ _ _ _ Hscan) as Hbs.
  pose proof (resolved_input_blocksize _ _ _ _ Hscan Hi0) as Hipos.
  pose proof (resolved_output_blocksize _ _ _ _ Hscan Ho0) as Hopos.
  plan_fields l1 g1 ev.
  split; [split; [exact Hipos | exact Hopos] |].
  split; [| split].
  - intros a Hin [Hop | [Hop | Hop]].
    + apply (scan_operands_number_ok _ _ _ _ _ _ Kibs Hscan Hin Hop eq_refl).
    + apply (scan_operands_number_ok _ _ _ _ _ _ Kobs Hscan Hin Hop eq_refl).
    + apply (scan_operands_number_ok _ _ _ _ _ _ Kbs Hscan Hin Hop eq_refl).
  - intros Hb Hi Hz. rewrite Hb in Hbs. rewrite Hbs.
    pose proof (scan_operands_untouched Kibs _ _ _ _ _ Hscan Hi) as Hf.
    apply RNum_inj in Hf. rewrite Hf, Hz. reflexivity.
  - intros Hb Ho Hz. rewrite Hb in Hbs. rewrite Hbs.
    pose proof (scan_operands_untouched Kobs _ _ _ _ _ Hscan Ho) as Hf.
    apply RNum_inj in Hf. rewrite Hf, Hz. reflexivity.
Qed.

(* A [cbs] operand whose number is in range is stored. *)
Lemma scan_operand_cbs_accepted name v l g :
  operand_is name "cbs" = true ->
  operand_val name = PStr v ->
  snd (parse_integer v) = LONGINT_OK ->
  1 <= to_uintmax (fst (parse_integer v)) <= SIZE_MAX ->
  scan_operand name l g
  = Returned l
      (set_conversion_blocksize (to_uintmax (fst (parse_integer v))) g).
Proof.
  intros Hk Hval Hok [Hlo Hhi].
  rewrite operand_is_key in Hk by reflexivity. apply String.eqb_eq in Hk.
  apply Z.ltb_ge in Hlo. apply Z.ltb_ge in Hhi.
  unfold operand_val in Hval.
  unfold scan_operand, scan_number, call_parse_symbols, deref, bind, error,
    usage, modify, ret, exit, undefined.
  rewrite !operand_is_key by reflexivity. rewrite Hk.
  destruct (strchr name "=") as [| s |]; try discriminate Hval.
  cbn [ptr_incr] in Hval |- *. rewrite Hval.
  cbn [String.eqb Ascii.eqb Bool.eqb fst snd].
  rewrite Hlo, Hhi, Hok. reflexivity.
Qed.

(** C4, as the code has it.  A [cbs] operand must carry a number between 1
    and [SIZE_MAX].  An iteration that reads a [cbs] operand with the
    number 0 ends the process with status [EXIT_FAILURE] after the
    diagnostic "invalid number".  An iteration that reads a [cbs] operand
    whose value [parse_integer] takes without error as a number between 1
    and [SIZE_MAX] completes, from every state: it stores the number in
    [conversion_blocksize] and changes nothing else, so a pass that
    completed so far completes with that operand added.  In a run of
    [scanargs] that completes, every [cbs] operand is between 1 and
    [SIZE_MAX], the final [conversion_blocksize] is the number of the last
    one, and when [conversion_blocksize] is 0 at the end neither C_BLOCK
    nor C_UNBLOCK is in the final mask. *)
Theorem cbs_zero_rejected_and_gating :
  (forall name v l g,
      operand_is name "cbs" = true ->
      operand_val name = PStr v ->
      to_uintmax (fst (parse_integer v)) = 0 ->
      exists g1,
        scan_operand name l g = Exited EXIT_FAILURE g1
        /\ events g1
           = (events g ++ [Error_msg 0 ("invalid number: " ++ quote v)])%list)
  /\ (forall name v,
         operand_is name "cbs" = true ->
         operand_val name = PStr v ->
         snd (parse_integer v) = LONGINT_OK ->
         1 <= to_uintmax (fst (parse_integer v)) <= SIZE_MAX ->
         (forall l g,
             scan_operand name l g
             = Returned l
                 (set_conversion_blocksize
                    (to_uintmax (fst (parse_integer v))) g))
         /\ (forall pre l g l1 g1,
                scan_operands pre l g = Returned l1 g1 ->
                scan_operands (pre ++ [name]) l g
                = Returned l1
                    (set_conversion_blocksize
                       (to_uintmax (fst (parse_integer v))) g1)))
  /\ (forall argv g0 s,
         scanargs argv g0 = Returned tt s ->
         (forall a,
             In a (operands argv g0) ->
             operand_is a "cbs" = true ->
             1 <= operand_number a <= SIZE_MAX)
         /\ (forall a,
                last_operand "cbs" (operands argv g0) = Some a ->
                conversion_blocksize s = operand_number a)
         /\ (conversion_blocksize s = 0 ->
             Z.land (conversions_mask s) (Z.lor C_BLOCK C_UNBLOCK) = 0)).
Proof.
  split; [| split].
  - intros name v l g Hop Hval Hzero.
    apply (scan_operand_below_min name v l g Kcbs Hop eq_refl Hval).
    rewrite Hzero. reflexivity.
  - intros name v Hop Hval Hok Hrange. split.
    + intros l g. exact (scan_operand_cbs_accepted _ _ l g Hop Hval Hok Hrange).
    + intros pre l g l1 g1 Hpre.
      rewrite scan_operands_app. unfold bind at 1. rewrite Hpre.
      cbn [scan_operands]. unfold bind.
      rewrite (scan_operand_cbs_accepted _ _ l1 g1 Hop Hval Hok Hrange).
      reflexivity.
  - intros argv g0 s H.
    destruct (scanargs_Returned _ _ _ H) as (l1 & g1 & ev & Hscan & Hs).
    cbv zeta in Hs. destruct Hs as (_ & _ & ->). clear H.
    plan_fields l1 g1 ev. split; [| split].
    + intros a Hin Hop.
      apply (scan_operands_number_ok _ _ _ _ _ _ Kcbs Hscan Hin Hop eq_refl).
    + intros a Hlast.
      pose proof (scan_operands_last Kcbs _ eq_refl _ _ _ _ _ Hscan Hlast)
        as Hf.
      cbn [raw_field operand_raw] in Hf. apply RNum_inj in Hf. exact Hf.
    + intros Hz. rewrite Hz. cbn [Z.eqb]. apply land_clear_same.
Qed.

(* An operand "count=v" whose number is the sentinel stores the sentinel. *)
Lemma scan_count_sentinel v l g :
  parse_integer v = (UINTMAX_MAX, LONGINT_OK) ->
  scan_operand ("count=" ++ v) l g = Returned (set_count UINTMAX_MAX l) g.
Proof.
  intros Hv.
  unfold scan_operand, scan_number.
  cbv [String.append operand_is operand_matches strchr ptr_incr deref
       Ascii.eqb Bool.eqb].
  rewrite Hv. reflexivity.
Qed.

Lemma set_count_same l : set_count (count l) l = l.
Proof. destruct l. reflexivity. Qed.

Lemma count_after_pass args g0 l1 g1 :
  scan_operands args initial_locals g0 = Returned l1 g1 ->
  count l1 = match last_operand "count" args with
             | Some a => operand_number a
             | None => UINTMAX_MAX
             end.
Proof.
  intros H.
  destruct (last_operand "count" args) as [a |] eqn:Hl.
  - pose proof (scan_operands_last Kcount args eq_refl _ _ _ _ _ H Hl) as Hf.
    apply RNum_inj in Hf. exact Hf.
  - pose proof (scan_operands_untouched Kcount args _ _ _ _ H Hl) as Hf.
    apply RNum_inj in Hf. exact Hf.
Qed.

(** C10. Let the operands of a call of [scanargs] contain "count=v" where
    [parse_integer] reads [v] as [UINTMAX_MAX] without error.  When no
    [count] operand comes before it, the call ends exactly as the call on
    the same operands without "count=v"; and when no [count] operand
    follows it and the call completes, [max_records] and [max_bytes] keep
    the values they had at the start: no limit is derived. *)
Theorem count_sentinel_as_unset
    (argv pre post : list string) (v : string) (g0 : globals) :
  parse_integer v = (UINTMAX_MAX, LONGINT_OK) ->
  operands argv g0 = (pre ++ ("count=" ++ v)%string :: post)%list ->
  (forall argv',
      operands argv' g0 = (pre ++ post)%list ->
      last_operand "count" pre = None ->
      scanargs argv g0 = scanargs argv' g0)
  /\ (forall s,
         scanargs argv g0 = Returned tt s ->
         last_operand "count" post = None ->
         max_records s = max_records g0 /\ max_bytes s = max_bytes g0).
Proof.
  intros Hv Hargs. split.
  - intros argv' Hargs' Hpre.
    assert (Hpass :
              scan_operands (pre ++ ("count=" ++ v)%string :: post)%list
                initial_locals g0
              = scan_operands (pre ++ post)%list initial_locals g0).
    { rewrite !scan_operands_app. unfold bind.
      destruct (scan_operands pre initial_locals g0) as [l1 g1 | |] eqn:Hp;
        try reflexivity.
      pose proof (scan_operands_untouched Kcount _ _ _ _ _ Hp Hpre) as Hc.
      apply RNum_inj in Hc. cbn [count initial_locals] in Hc.
      cbn [scan_operands]. unfold bind.
      rewrite (scan_count_sentinel v l1 g1 Hv), <- Hc, set_count_same.
      reflexivity. }
    unfold scanargs, resolve_fields. rewrite Hargs, Hargs'.
    unfold bind. rewrite Hpass. reflexivity.
  - intros s H Hpost.
    destruct (scanargs_Returned _ _ _ H) as (l1 & g1 & ev & Hscan & Hs).
    cbv zeta in Hs. destruct Hs as (_ & _ & ->). clear H.
    pose proof (count_after_pass _ _ _ _ Hscan) as Hc.
    rewrite Hargs in Hc.
    rewrite (last_operand_app "count" pre ("count=" ++ v) post) in Hc;
      [| reflexivity | exact Hpost].
    assert (Hn : operand_number ("count=" ++ v) = UINTMAX_MAX).
    { unfold operand_number, operand_text, operand_val.
      cbv [String.append strchr ptr_incr Ascii.eqb Bool.eqb].
      rewrite Hv. reflexivity. }
    rewrite Hn in Hc.
    pose proof (scan_operands_derived _ _ _ _ _ Hscan) as Hd.
    unfold derived_part in Hd.
    injection Hd as _ _ _ _ _ _ Hmr Hmb _ _ _ _.
    plan_fields l1 g1 ev. rewrite Hc, Z.eqb_refl, Hmr, Hmb.
    cbn [negb andb]. rewrite !andb_false_r. split; reflexivity.
Qed.

Lemma skip_after_pass args g0 l1 g1 :
  scan_operands args initial_locals g0 = Returned l1 g1 ->
  skip l1 = match last_operand "skip" args with
            | Some a => operand_number a
            | None => 0
            end.
Proof.
  intros H.
  destruct (last_operand "skip" args) as [a |] eqn:Hl.
  - pose proof (scan_operands_last Kskip args eq_refl _ _ _ _ _ H Hl) as Hf.
    apply RNum_inj in Hf. exact Hf.
  - pose proof (scan_operands_untouched Kskip args _ _ _ _ H Hl) as Hf.
    apply RNum_inj in Hf. exact Hf.
Qed.

(* The bits of [x] in the final input flags are those the resolver tested,
   when [x] shares no bit with O_FULLBLOCK and O_NOCACHE. *)
Lemma final_flag_bits f x :
  Z.land x O_FULLBLOCK = 0 ->
  Z.land x O_NOCACHE = 0 ->
  Z.land
    (if nonzero (Z.land (Z.land f (Z.lnot O_FULLBLOCK)) O_NOCACHE)
     then Z.land (Z.land f (Z.lnot O_FULLBLOCK)) (Z.lnot O_NOCACHE)
     else Z.land f (Z.lnot O_FULLBLOCK)) x
  = Z.land f x.
Proof.
  intros Hf Hn.
  destruct (nonzero (Z.land (Z.land f (Z.lnot O_FULLBLOCK)) O_NOCACHE)).
  - rewrite (land_clear_disjoint _ _ _ Hn). apply land_clear_disjoint, Hf.
  - apply land_clear_disjoint, Hf.
Qed.

(** C8. In a run of [scanargs] that completes from a state with
    [skip_records] and [skip_bytes] zero, let N be the number of the last
    [skip] operand (0 without one), B the final input block size, and [r]
    the state in which line 322 is reached (its input block size is B).
    When the input flags of [r] contain O_SKIP_BYTES,
    [skip_records = N / B] and [skip_bytes = N mod B] at the end; when
    they do not and N is not 0, [skip_records = N] and [skip_bytes = 0].
    The same holds with the flag read in the final input flags, on a
    platform whose O_SKIP_BYTES shares no bit with O_FULLBLOCK and
    O_NOCACHE (the bits cleared after line 322). *)
Theorem skip_splitting (argv : list string) (g0 s : globals) :
  scanargs argv g0 = Returned tt s ->
  skip_records g0 = 0 ->
  skip_bytes g0 = 0 ->
  let N := match last_operand "skip" (operands argv g0) with
           | Some a => operand_number a
           | None => 0
           end in
  let B := input_blocksize s in
  (exists l1 g1 ev,
      scan_operands (operands argv g0) initial_locals g0 = Returned l1 g1
      /\ let r := set_events ev (resolve_blocksizes l1 g1) in
         s = extract_nocache (choose_read_strategy (derive_offsets l1 r))
         /\ input_blocksize r = B
         /\ (Z.land (input_flags r) O_SKIP_BYTES <> 0 ->
             skip_records s = N / B /\ skip_bytes s = N mod B)
         /\ (Z.land (input_flags r) O_SKIP_BYTES = 0 ->
             N <> 0 ->
             skip_records s = N /\ skip_bytes s = 0))
  /\ (Z.land O_SKIP_BYTES O_FULLBLOCK = 0 ->
      Z.land O_SKIP_BYTES O_NOCACHE = 0 ->
      (Z.land (input_flags s) O_SKIP_BYTES <> 0 ->
       skip_records s = N / B /\ skip_bytes s = N mod B)
      /\ (Z.land (input_flags s) O_SKIP_BYTES = 0 ->
          N <> 0 ->
          skip_records s = N /\ skip_bytes s = 0)).
Proof.
  intros H Hr0 Hb0.
  destruct (scanargs_Returned _ _ _ H) as (l1 & g1 & ev & Hscan & Hs).
  cbv zeta in Hs. destruct Hs as (_ & _ & ->). clear H.
  rewrite <- (skip_after_pass _ _ _ _ Hscan).
  pose proof (scan_operands_derived _ _ _ _ _ Hscan) as Hd.
  unfold derived_part in Hd.
  injection Hd as _ _ Hsr Hsb _ _ _ _ _ _ _ _.
  cbv zeta.
  assert (Hsplit :
            forall f b,
              (Z.land f O_SKIP_BYTES <> 0 ->
               (if nonzero (Z.land f O_SKIP_BYTES) && nonzero (skip l1)
                then skip l1 / b
                else if nonzero (skip l1) then skip l1 else 0)
               = skip l1 / b
               /\ (if nonzero (Z.land f O_SKIP_BYTES) && nonzero (skip l1)
                   then skip l1 mod b else 0)
                  = skip l1 mod b)
              /\ (Z.land f O_SKIP_BYTES = 0 ->
                  skip l1 <> 0 ->
                  (if nonzero (Z.land f O_SKIP_BYTES) && nonzero (skip l1)
                   then skip l1 / b
                   else if nonzero (skip l1) then skip l1 else 0)
                  = skip l1
                  /\ (if nonzero (Z.land f O_SKIP_BYTES)
                         && nonzero (skip l1)
                      then skip l1 mod b else 0)
                     = 0)).
  { intros f b. split.
    - intros Hset. apply nonzero_true in Hset. rewrite Hset. cbn [andb].
      destruct (nonzero (skip l1)) eqn:Hn; [split; reflexivity |].
      apply nonzero_false in Hn. rewrite Hn.
      rewrite Zdiv_0_l, Zmod_0_l. split; reflexivity.
    - intros Hclear Hn. apply nonzero_false in Hclear.
      apply nonzero_true in Hn. rewrite Hclear, Hn. cbn [andb].
      split; reflexivity. }
  split.
  - exists l1, g1, ev. split; [exact Hscan |]. cbv zeta.
    split; [reflexivity |].
    plan_fields l1 g1 ev. rewrite Hsr, Hsb, Hr0, Hb0.
    split; [reflexivity |]. apply Hsplit.
  - intros Hfull Hnc. plan_fields l1 g1 ev.
    rewrite (final_flag_bits _ _ Hfull Hnc), Hsr, Hsb, Hr0, Hb0.
    apply Hsplit.
Qed.

Lemma final_oflag_bits f x :
  Z.land x O_NOCACHE = 0 ->
  Z.land
    (if nonzero (Z.land f O_NOCACHE) then Z.land f (Z.lnot O_NOCACHE) else f)
    x
  = Z.land f x.
Proof.
  intros Hn. destruct (nonzero (Z.land f O_NOCACHE)); [| reflexivity].
  apply land_clear_disjoint, Hn.
Qed.

Lemma final_direct_bits fi fo x :
  Z.land x O_FULLBLOCK = 0 ->
  Z.land x O_NOCACHE = 0 ->
  Z.land
    (Z.lor
       (if nonzero (Z.land (Z.land fi (Z.lnot O_FULLBLOCK)) O_NOCACHE)
        then Z.land (Z.land fi (Z.lnot O_FULLBLOCK)) (Z.lnot O_NOCACHE)
        else Z.land fi (Z.lnot O_FULLBLOCK))
       (if nonzero (Z.land fo O_NOCACHE)
        then Z.land fo (Z.lnot O_NOCACHE) else fo)) x
  = Z.land (Z.lor fi fo) x.
Proof.
  intros Hf Hn.
  rewrite Z.land_lor_distr_l, (final_flag_bits _ _ Hf Hn),
    (final_oflag_bits _ _ Hn), <- Z.land_lor_distr_l.
  reflexivity.
Qed.

(* Lines 350-359 on any state [d] with [skip_records] not negative. *)
Lemma warn_partial_read_at d :
  0 <= skip_records d ->
  warn_partial_read (choose_read_strategy d) = true
  <-> Z.land (conversions_mask d) C_TWOBUFS = 0
      /\ Z.land (input_flags d) O_FULLBLOCK = 0
      /\ (0 < skip_records d
          \/ 0 < max_records d < UINTMAX_MAX
          \/ Z.land (Z.lor (input_flags d) (output_flags d)) O_DIRECT <> 0).
Proof.
  intros Hpos.
  destruct (choose_read_strategy_fields d)
    as (_ & _ & _ & _ & _ & _ & _ & _ & _ & _ & _ & _ & -> & _).
  rewrite !andb_true_iff, !orb_true_iff, andb_true_iff, !negb_true_iff,
    !nonzero_false, !nonzero_true, Z.ltb_lt, Z.ltb_lt.
  assert (Hsr : skip_records d <> 0 <-> 0 < skip_records d) by lia.
  rewrite Hsr. tauto.
Qed.

Lemma iread_fnc_at d :
  iread_fnc (choose_read_strategy d) = iread
  <-> Z.land (input_flags d) O_FULLBLOCK = 0.
Proof.
  destruct (choose_read_strategy_fields d)
    as (_ & _ & _ & _ & _ & _ & _ & _ & _ & _ & _ & _ & _ & ->).
  destruct (nonzero (Z.land (input_flags d) O_FULLBLOCK)) eqn:E.
  - apply nonzero_true in E. split; [discriminate | contradiction].
  - apply nonzero_false in E. split; auto.
Qed.

Lemma skip_records_nonneg args g0 l1 g1 ev :
  scan_operands args initial_locals g0 = Returned l1 g1 ->
  0 <= skip_records g0 ->
  0 <= input_blocksize g0 ->
  0 <= skip_records
         (derive_offsets l1 (set_events ev (resolve_blocksizes l1 g1))).
Proof.
  intros Hscan Hr0 Hi0.
  pose proof (resolved_input_blocksize _ _ _ _ Hscan Hi0) as Hipos.
  destruct (number_field_nonneg Kskip _ _ _ _ _ _ _ eq_refl Hscan eq_refl
              (Z.le_refl 0) eq_refl) as [Hskip _].
  pose proof (scan_operands_derived _ _ _ _ _ Hscan) as Hd.
  unfold derived_part in Hd.
  injection Hd as _ _ Hsr _ _ _ _ _ _ _ _ _.
  pose proof (derive_offsets_fields l1
                (set_events ev (resolve_blocksizes l1 g1))) as H.
  use_conj H.
  pose proof (set_events_fields ev (resolve_blocksizes l1 g1)) as H.
  use_conj H.
  pose proof (resolve_blocksizes_fields l1 g1) as H.
  use_conj H.
  rewrite Hsr.
  match goal with
  | |- 0 <= (if ?c then _ else _) => destruct c
  end.
  - apply Z.div_pos; lia.
  - destruct (nonzero (skip l1)); assumption.
Qed.

(** C9. In a run of [scanargs] that completes from a state whose
    [skip_records] and input block size are not negative: let [d] be the
    state in which line 350 is reached.  [warn_partial_read] is true at
    the end exactly when in [d] C_TWOBUFS is not in the mask, O_FULLBLOCK
    is not in the input flags, and [skip_records > 0] or
    [0 < max_records < UINTMAX_MAX] or O_DIRECT is in the input or output
    flags.  The same holds read on the final state alone, where the
    fullblock flag, which line 359 clears, shows as the input routine
    [iread], on a platform whose O_DIRECT shares no bit with O_FULLBLOCK
    and O_NOCACHE (the bits cleared after line 350). *)
Theorem warn_partial_read_exactly (argv : list string) (g0 s : globals) :
  scanargs argv g0 = Returned tt s ->
  0 <= skip_records g0 ->
  0 <= input_blocksize g0 ->
  (exists l1 g1 ev,
      scan_operands (operands argv g0) initial_locals g0 = Returned l1 g1
      /\ let d := derive_offsets l1
                    (set_events ev (resolve_blocksizes l1 g1)) in
         s = extract_nocache (choose_read_strategy d)
         /\ (iread_fnc s = iread <-> Z.land (input_flags d) O_FULLBLOCK = 0)
         /\ (warn_partial_read s = true
             <-> Z.land (conversions_mask d) C_TWOBUFS = 0
                 /\ Z.land (input_flags d) O_FULLBLOCK = 0
                 /\ (0 < skip_records d
                     \/ 0 < max_records d < UINTMAX_MAX
                     \/ Z.land (Z.lor (input_flags d) (output_flags d))
                          O_DIRECT <> 0)))
  /\ (Z.land O_DIRECT O_FULLBLOCK = 0 ->
      Z.land O_DIRECT O_NOCACHE = 0 ->
      warn_partial_read s = true
      <-> Z.land (conversions_mask s) C_TWOBUFS = 0
          /\ iread_fnc s = iread
          /\ (0 < skip_records s
              \/ 0 < max_records s < UINTMAX_MAX
              \/ Z.land (Z.lor (input_flags s) (output_flags s)) O_DIRECT
                 <> 0)).
Proof.
  intros H Hr0 Hi0.
  destruct (scanargs_Returned _ _ _ H) as (l1 & g1 & ev & Hscan & Hs).
  cbv zeta in Hs. destruct Hs as (_ & _ & ->). clear H.
  pose proof (skip_records_nonneg _ _ _ _ ev Hscan Hr0 Hi0) as Hpos.
  set (d := derive_offsets l1 (set_events ev (resolve_blocksizes l1 g1)))
    in *.
  pose proof (warn_partial_read_at d Hpos) as Hwarn.
  pose proof (iread_fnc_at d) as Hread.
  destruct (extract_nocache_fields (choose_read_strategy d))
    as (_ & _ & _ & Emask & Ein & Eout & Esr & _ & Emr & _ & _ & _
        & Ewarn & Eread).
  destruct (choose_read_strategy_fields d)
    as (_ & _ & _ & Cmask & Cin & Cout & Csr & _ & Cmr & _).
  rewrite <- Ewarn in Hwarn. rewrite <- Eread in Hread.
  split.
  - exists l1, g1, ev. split; [exact Hscan |]. fold d. cbv zeta.
    split; [reflexivity | split; [exact Hread | exact Hwarn]].
  - intros Hfull Hnc.
    rewrite Hwarn, Hread, Emask, Cmask, Esr, Csr, Emr, Cmr, Ein, Eout, Cin,
      Cout.
    rewrite (final_direct_bits _ _ _ Hfull Hnc). reflexivity.
Qed.

Lemma at_most_one_bit_nocache f :
  at_most_one_bit (Z.land f (Z.lor O_DIRECT O_NOCACHE)) ->
  at_most_one_bit
    (Z.land (if nonzero (Z.land f O_NOCACHE)
             then Z.land f (Z.lnot O_NOCACHE) else f)
       (Z.lor O_DIRECT O_NOCACHE)).
Proof.
  intros H. destruct (nonzero (Z.land f O_NOCACHE)); [| exact H].
  apply at_most_one_bit_clear, H.
Qed.

(** C7. In a run of [scanargs] that completes, at most one bit of each
    group is set: of {C_ASCII, C_EBCDIC, C_IBM}, {C_BLOCK, C_UNBLOCK},
    {C_LCASE, C_UCASE} and {C_EXCL, C_NOCREAT} in the final conversions
    mask, and of {O_DIRECT, O_NOCACHE} in the input and in the output
    flags, both as they are when lines 361-371 test them (state [s1]) and
    at the end.  And when the run reaches those tests in a state [s1] with
    several bits of a group set, the process ends there with status
    [EXIT_FAILURE] and the "cannot combine" diagnostic of the first such
    group as its last output. *)
Theorem exclusive_groups (argv : list string) (g0 : globals) :
  (forall s,
      scanargs argv g0 = Returned tt s ->
      at_most_one_bit
        (Z.land (conversions_mask s) (Z.lor (Z.lor C_ASCII C_EBCDIC) C_IBM))
      /\ at_most_one_bit
           (Z.land (conversions_mask s) (Z.lor C_BLOCK C_UNBLOCK))
      /\ at_most_one_bit
           (Z.land (conversions_mask s) (Z.lor C_LCASE C_UCASE))
      /\ at_most_one_bit
           (Z.land (conversions_mask s) (Z.lor C_EXCL C_NOCREAT))
      /\ at_most_one_bit (Z.land (input_flags s) (Z.lor O_DIRECT O_NOCACHE))
      /\ at_most_one_bit (Z.land (output_flags s) (Z.lor O_DIRECT O_NOCACHE))
      /\ exists s1,
           resolve_fields (operands argv g0) g0 = Returned tt s1
           /\ s = extract_nocache s1
           /\ at_most_one_bit
                (Z.land (input_flags s1) (Z.lor O_DIRECT O_NOCACHE))
           /\ at_most_one_bit
                (Z.land (output_flags s1) (Z.lor O_DIRECT O_NOCACHE)))
  /\ (forall s1,
         resolve_fields (operands argv g0) g0 = Returned tt s1 ->
         let ascii_group :=
           multiple_bits_set
             (Z.land (conversions_mask s1)
                (Z.lor (Z.lor C_ASCII C_EBCDIC) C_IBM)) in
         let block_group :=
           multiple_bits_set
             (Z.land (conversions_mask s1) (Z.lor C_BLOCK C_UNBLOCK)) in
         let case_group :=
           multiple_bits_set
             (Z.land (conversions_mask s1) (Z.lor C_LCASE C_UCASE)) in
         let excl_group :=
           multiple_bits_set
             (Z.land (conversions_mask s1) (Z.lor C_EXCL C_NOCREAT)) in
         let direct_group :=
           multiple_bits_set
             (Z.land (input_flags s1) (Z.lor O_DIRECT O_NOCACHE))
           || multiple_bits_set
                (Z.land (output_flags s1) (Z.lor O_DIRECT O_NOCACHE)) in
         let rejected msg :=
           scanargs argv g0
           = Exited EXIT_FAILURE (log (Error_msg 0 msg) s1) in
         (ascii_group = true ->
          rejected "cannot combine any two of {ascii,ebcdic,ibm}")
         /\ (ascii_group = false -> block_group = true ->
             rejected "cannot combine block and unblock")
         /\ (ascii_group = false -> block_group = false ->
             case_group = true ->
             rejected "cannot combine lcase and ucase")
         /\ (ascii_group = false -> block_group = false ->
             case_group = false -> excl_group = true ->
             rejected "cannot combine excl and nocreat")
         /\ (ascii_group = false -> block_group = false ->
             case_group = false -> excl_group = false ->
             direct_group = true ->
             rejected "cannot combine direct and nocache")).
Proof.
  split.
  - intros s H.
    destruct (scanargs_Returned _ _ _ H) as (l1 & g1 & ev & Hscan & Hs).
    cbv zeta in Hs. destruct Hs as (Hfields & Hok & ->). clear H.
    destruct Hok as (H1 & H2 & H3 & H4 & H5 & H6).
    apply multiple_bits_set_false in H1, H2, H3, H4, H5, H6.
    set (s1 := choose_read_strategy _) in *.
    assert (Hfinal :
              at_most_one_bit
                (Z.land (input_flags (extract_nocache s1))
                   (Z.lor O_DIRECT O_NOCACHE))
              /\ at_most_one_bit
                   (Z.land (output_flags (extract_nocache s1))
                      (Z.lor O_DIRECT O_NOCACHE))
              /\ conversions_mask (extract_nocache s1) = conversions_mask s1).
    { destruct (extract_nocache_fields s1)
        as (_ & _ & _ & -> & -> & -> & _).
      split; [apply at_most_one_bit_nocache, H5 |].
      split; [apply at_most_one_bit_nocache, H6 | reflexivity]. }
    destruct Hfinal as (Hin & Hout & ->).
    repeat (split; [assumption |]).
    exists s1. repeat (split; [first [assumption | reflexivity] |]).
    assumption.
  - intros s1 Hfields. cbv zeta.
    unfold scanargs, bind. rewrite Hfields.
    unfold check_exclusive, when_, bind, error, modify, ret, exit.
    repeat split; intros; 
      repeat match goal with E : _ = _ |- _ => rewrite E; clear E end;
      reflexivity.
Qed.

Lemma scan_operands_single a l g :
  scan_operands [a] l g = scan_operand a l g.
Proof.
  cbn [scan_operands]. unfold bind, ret.
  destruct (scan_operand a l g); reflexivity.
Qed.

(** C5, as the code has it.  Let a pass over [pre ++ a :: post] complete,
    where [a] is an operand named [k] and no operand of [post] has that
    name.  For every name but [conv], [iflag] and [oflag] the field of [k]
    is then the one a pass over [a] alone produces from any state (and
    that pass completes): the last occurrence wins.  For [conv], [iflag]
    and [oflag] the field is the bitwise OR of the field as the pass over
    [pre] left it and the mask of [a]: occurrences accumulate. *)
Theorem last_operand_wins_unless_mask
    (k : opname) (pre post : list string) (a : string)
    (l : locals) (g : globals) (l' : locals) (g' : globals) :
  scan_operands (pre ++ a :: post) l g = Returned l' g' ->
  operand_is a (opname_string k) = true ->
  last_operand (opname_string k) post = None ->
  (accumulates k = false ->
   forall l0 g0,
   exists l1 g1,
     scan_operands [a] l0 g0 = Returned l1 g1
     /\ raw_field k l' g' = raw_field k l1 g1)
  /\ (accumulates k = true ->
      exists lp gp old new,
        scan_operands pre l g = Returned lp gp
        /\ raw_field k lp gp = RNum old
        /\ operand_raw k a = RNum new
        /\ raw_field k l' g' = RNum (Z.lor old new)).
Proof.
  intros H Hop Hpost.
  rewrite scan_operands_app in H. apply bind_Returned in H.
  destruct H as (lp & gp & Hpre & H).
  apply scan_operands_cons in H. destruct H as (la & ga & Hstep & Hrest).
  pose proof (scan_operands_untouched k _ _ _ _ _ Hrest Hpost) as Hframe.
  split.
  - intros Hacc l0 g0.
    destruct (scan_operand_Returned_any _ _ _ _ _ l0 g0 Hstep)
      as (l1 & g1 & Hone).
    exists l1, g1. rewrite scan_operands_single. split; [exact Hone |].
    rewrite Hframe, (scan_operand_store _ _ _ _ _ _ Hstep Hop Hacc).
    symmetry. exact (scan_operand_store _ _ _ _ _ _ Hone Hop Hacc).
  - intros Hacc.
    destruct (scan_operand_accumulate _ _ _ _ _ _ Hstep Hop Hacc)
      as (old & new & Hold & Hnew & Hres).
    exists lp, gp, old, new. rewrite Hframe. auto.
Qed.

End Properties.

(** ** Runs on the reference platform *)

(** C5 as the specification states it fails for [conv]: after "conv=lcase" and
    "conv=ucase" the mask holds both C_LCASE and C_UCASE, while
    "conv=ucase" alone gives C_UCASE without C_LCASE. *)
Lemma conv_operands_accumulate :
  exists l g l' g',
    scan_operands (P := Reference.platform) ["conv=lcase"; "conv=ucase"]
      initial_locals Reference.start = Returned l g
    /\ scan_operands (P := Reference.platform) ["conv=ucase"]
         initial_locals Reference.start = Returned l' g'
    /\ raw_field Kconv l g
       = RNum (Z.lor (Z.lor C_LCASE C_UCASE) C_TWOBUFS)
    /\ raw_field Kconv l' g' = RNum (Z.lor C_UCASE C_TWOBUFS)
    /\ raw_field Kconv l g <> raw_field Kconv l' g'.
Proof.
  do 4 eexists.
  split; [vm_compute; reflexivity |].
  split; [vm_compute; reflexivity |].
  split; [vm_compute; reflexivity |].
  split; [vm_compute; reflexivity |].
  vm_compute. discriminate.
Qed.

(** C4 as the specification states it fails: the invocation [dd cbs=0] is
    not accepted; [scanargs] ends the process with status [EXIT_FAILURE] after
    the diagnostic "invalid number: '0'". *)
Lemma cbs_zero_is_rejected :
  exists g,
    scanargs (P := Reference.platform) ["dd"; "cbs=0"] Reference.start
    = Exited EXIT_FAILURE g
    /\ events g = [Error_msg 0 "invalid number: '0'"].
Proof.
  eexists. split; vm_compute; reflexivity.
Qed.

(** C1, what [main] does.  When [getopt_long] finds no option in argv, as
    for an argv of key=value operands with or without a leading "--", it
    returns -1; [main] takes every nonzero value for an option error, so
    it prints its "Incorrect Options!" line and returns [EXIT_FAILURE]
    without calling [scanargs]: the operand pass is never reached.  The
    state [main] leaves holds, besides its own two lines, whatever the
    call of [getopt_long] wrote (nothing, in the C library, when it
    returns -1). *)
Theorem main_stops_before_scanargs {P : Platform}
    (argv : list string) (g : globals) :
  getopt_ret (getopt_long argv "") = -1 ->
  main argv g
  = Returned EXIT_FAILURE
      (log (Puts "Incorrect Options! Do not use GNU style options")
         (set_optind (getopt_optind (getopt_long argv ""))
            (log_all (getopt_written (getopt_long argv ""))
               (set_page_size sysconf_SC_PAGESIZE
                  (log (Puts "Hello!") g))))).
Proof.
  intros H. unfold main, bind, modify, ret. rewrite H. reflexivity.
Qed.

Lemma main_stops_before_scanargs_run :
  getopt_ret (getopt_long (Platform := Reference.platform)
                ["dd"; "--"; "if=in"; "of=out"] "") = -1
  /\ exit_status
       (main (P := Reference.platform) ["dd"; "--"; "if=in"; "of=out"]
          Reference.start)
     = Some EXIT_FAILURE.
Proof.
  split; [reflexivity |].
  rewrite (main_stops_before_scanargs (P := Reference.platform)
             ["dd"; "--"; "if=in"; "of=out"] Reference.start eq_refl).
  reflexivity.
Defined.

(** C2, what the code does.  [usage (EXIT_FAILURE)] prints the "Try ..."
    line and returns: the call of [exit] is in the branch for
    [EXIT_SUCCESS].  So a diagnostic that [scanargs] reports through
    [error (0, 0, ...)] and [usage (EXIT_FAILURE)] does not end the
    process.  On every platform the argument "if", which lacks '=', gets
    its "unrecognized operand" diagnostic and is then stored as an input
    file through the pointer NULL + 1; and for [dd oflag=fullblock] on the
    reference platform [scanargs] writes "invalid output flag:
    'fullblock'" and the "Try ..." line, goes on, and returns to its caller
    with the flag still in the output flags. *)
Theorem usage_failure_does_not_exit :
  (forall g,
      usage EXIT_FAILURE g
      = Returned tt
          (log (Fprintf_stderr "Try 'dd --help' for more information.") g))
  /\ (forall (P : Platform) l g,
         scan_operand "if" l g
         = Returned l
             (set_input_file PInvalid
                (log (Fprintf_stderr "Try 'dd --help' for more information.")
                   (log (Error_msg 0 "unrecognized operand if") g))))
  /\ exists s,
       scanargs (P := Reference.platform) ["dd"; "oflag=fullblock"]
         Reference.start = Returned tt s
       /\ events s
          = [Error_msg 0 "invalid output flag: 'fullblock'";
             Fprintf_stderr "Try 'dd --help' for more information."]
       /\ output_flags s = O_FULLBLOCK (Platform := Reference.platform).
Proof.
  split; [reflexivity |].
  split; [reflexivity |].
  eexists. split; [vm_compute; reflexivity |].
  split; vm_compute; reflexivity.
Qed.

(* Scenarios of section 8 of the specification, with plain numbers. *)
Example scenario_count_bytes :
  exists s,
    scanargs (P := Reference.platform)
      ["dd"; "if=a"; "of=b"; "bs=512"; "count=1024"; "iflag=count_bytes"]
      Reference.start = Returned tt s
    /\ max_records s = 2 /\ max_bytes s = 0.
Proof.
  eexists. split; [vm_compute; reflexivity |].
  split; vm_compute; reflexivity.
Qed.

Example scenario_two_buffers :
  exists s,
    scanargs (P := Reference.platform)
      ["dd"; "if=a"; "of=b"; "ibs=512"; "obs=1024"; "skip=3"]
      Reference.start = Returned tt s
    /\ input_blocksize s = 512 /\ output_blocksize s = 1024
    /\ skip_records s = 3 /\ conversions_mask s = C_TWOBUFS.
Proof.
  eexists. split; [vm_compute; reflexivity |].
  split; [| split; [| split]]; vm_compute; reflexivity.
Qed.

Example scenario_bs_zero :
  exists g,
    scanargs (P := Reference.platform) ["dd"; "bs=0"] Reference.start
    = Exited EXIT_FAILURE g
    /\ events g = [Error_msg 0 "invalid number: '0'"].
Proof. eexists. split; vm_compute; reflexivity. Qed.

(* An argument without '=' that names no file: [parse_integer] is handed
   the pointer NULL + 1. *)
Example scenario_foobar :
  scanargs (P := Reference.platform) ["dd"; "foobar"] Reference.start
  = Undefined.
Proof. vm_compute. reflexivity. Qed.

(** ** The theorems at concrete invocations *)

Section Runs.

Local Existing Instance Reference.platform.

Lemma bs_wins_else_twobufs_run :
  exists s,
    scanargs ["dd"; "if=/dev/zero"; "of=out"; "bs=1048576"; "count=10"]
      Reference.start = Returned tt s
    /\ input_blocksize s = 1048576
    /\ output_blocksize s = 1048576
    /\ Z.land (conversions_mask s) C_TWOBUFS = 0.
Proof.
  eexists. split; [vm_compute; reflexivity |].
  match goal with |- input_blocksize ?s = _ /\ _ => set (s0 := s) end.
  assert (H : scanargs
                ["dd"; "if=/dev/zero"; "of=out"; "bs=1048576"; "count=10"]
                Reference.start = Returned tt s0)
    by (vm_compute; reflexivity).
  pose proof (bs_wins_else_twobufs _ _ _ H) as [Hbs _].
  assert (Hl : last_operand "bs"
                 (operands
                    ["dd"; "if=/dev/zero"; "of=out"; "bs=1048576";
                     "count=10"] Reference.start) = Some "bs=1048576")
    by (vm_compute; reflexivity).
  destruct (Hbs _ Hl) as (Hi & Ho & _ & Hmask).
  assert (Hc : last_operand "conv"
                 (operands
                    ["dd"; "if=/dev/zero"; "of=out"; "bs=1048576";
                     "count=10"] Reference.start) = None)
    by (vm_compute; reflexivity).
  specialize (Hmask Hc).
  vm_compute in Hi, Ho, Hmask.
  split; [exact Hi | split; [exact Ho | exact Hmask]].
Defined.

Lemma cbs_zero_rejected_and_gating_run :
  (exists g1,
      scan_operand "cbs=0" initial_locals Reference.start
      = Exited EXIT_FAILURE g1
      /\ events g1 = [Error_msg 0 "invalid number: '0'"])
  /\ scan_operand "cbs=80" initial_locals Reference.start
     = Returned initial_locals (set_conversion_blocksize 80 Reference.start)
  /\ (exists s,
         scanargs ["dd"; "conv=block"; "cbs=80"] Reference.start
         = Returned tt s
         /\ conversion_blocksize s = 80)
  /\ exists s,
       scanargs ["dd"; "conv=block"] Reference.start = Returned tt s
       /\ Z.land (conversions_mask s) (Z.lor C_BLOCK C_UNBLOCK) = 0.
Proof.
  destruct cbs_zero_rejected_and_gating as (Hzero & Haccept & Hrun).
  split; [| split; [| split]].
  - destruct (Hzero "cbs=0" "0" initial_locals Reference.start
                eq_refl eq_refl eq_refl) as (g1 & Hexit & Hev).
    exists g1. split; [exact Hexit | exact Hev].
  - assert (Hrange : 1 <= to_uintmax
                            (fst (parse_integer
                                    (Platform := Reference.platform) "80"))
                     <= SIZE_MAX)
      by (vm_compute; split; discriminate).
    destruct (Haccept "cbs=80" "80" eq_refl eq_refl eq_refl Hrange)
      as [Hstep _].
    exact (Hstep initial_locals Reference.start).
  - eexists. split; [vm_compute; reflexivity |].
    match goal with |- conversion_blocksize ?s = _ => set (s0 := s) end.
    assert (H : scanargs ["dd"; "conv=block"; "cbs=80"] Reference.start
                = Returned tt s0)
      by (vm_compute; reflexivity).
    destruct (Hrun _ _ _ H) as (_ & Hlast & _).
    rewrite (Hlast "cbs=80"); [| vm_compute; reflexivity].
    vm_compute. reflexivity.
  - eexists. split; [vm_compute; reflexivity |].
    match goal with |- Z.land (conversions_mask ?s) _ = _ => set (s0 := s) end.
    assert (H : scanargs ["dd"; "conv=block"] Reference.start
                = Returned tt s0)
      by (vm_compute; reflexivity).
    destruct (Hrun _ _ _ H) as (_ & _ & Hclear).
    apply Hclear. reflexivity.
Defined.

Lemma last_operand_wins_unless_mask_run :
  exists l' g',
    scan_operands ["bs=512"; "bs=1024"; "if=in"] initial_locals
      Reference.start = Returned l' g'
    /\ exists l1 g1,
         scan_operands ["bs=1024"] initial_locals Reference.start
         = Returned l1 g1
         /\ raw_field Kbs l' g' = raw_field Kbs l1 g1.
Proof.
  eexists. eexists. split; [vm_compute; reflexivity |].
  match goal with
  | |- exists l1 g1, _ /\ raw_field _ ?l ?g = _ =>
      set (l0 := l); set (g0 := g)
  end.
  assert (H : scan_operands (["bs=512"] ++ "bs=1024" :: ["if=in"])
                initial_locals Reference.start = Returned l0 g0)
    by (vm_compute; reflexivity).
  destruct (last_operand_wins_unless_mask Kbs _ _ _ _ _ _ _ H
              eq_refl eq_refl) as [Hwins _].
  exact (Hwins eq_refl initial_locals Reference.start).
Defined.

Lemma block_sizes_at_least_one_run :
  exists s,
    scanargs ["dd"; "if=a"; "of=b"; "ibs=512"; "obs=1024"; "skip=3"]
      Reference.start = Returned tt s
    /\ 1 <= input_blocksize s /\ 1 <= output_blocksize s.
Proof.
  eexists. split; [vm_compute; reflexivity |].
  match goal with |- 1 <= input_blocksize ?s /\ _ => set (s0 := s) end.
  assert (H : scanargs
                ["dd"; "if=a"; "of=b"; "ibs=512"; "obs=1024"; "skip=3"]
                Reference.start = Returned tt s0)
    by (vm_compute; reflexivity).
  assert (Hi : 0 <= input_blocksize Reference.start)
    by (vm_compute; discriminate).
  assert (Ho : 0 <= output_blocksize Reference.start)
    by (vm_compute; discriminate).
  destruct (block_sizes_at_least_one _ _ _ H Hi Ho) as [Hpos _].
  exact Hpos.
Defined.

Lemma exclusive_groups_run :
  (exists s,
      scanargs ["dd"; "conv=lcase,excl"; "iflag=direct"; "oflag=nocache"]
        Reference.start = Returned tt s
      /\ at_most_one_bit
           (Z.land (conversions_mask s) (Z.lor C_LCASE C_UCASE))
      /\ at_most_one_bit
           (Z.land (input_flags s) (Z.lor O_DIRECT O_NOCACHE)))
  /\ exists s1,
       resolve_fields ["conv=ascii,ebcdic"] Reference.start = Returned tt s1
       /\ scanargs ["dd"; "conv=ascii,ebcdic"] Reference.start
          = Exited EXIT_FAILURE
              (log (Error_msg 0 "cannot combine any two of {ascii,ebcdic,ibm}")
                 s1).
Proof.
  split.
  - eexists. split; [vm_compute; reflexivity |].
    match goal with
    | |- at_most_one_bit (Z.land (conversions_mask ?s) _) /\ _ =>
        set (s0 := s)
    end.
    assert (H : scanargs
                  ["dd"; "conv=lcase,excl"; "iflag=direct"; "oflag=nocache"]
                  Reference.start = Returned tt s0)
      by (vm_compute; reflexivity).
    destruct (exclusive_groups
                ["dd"; "conv=lcase,excl"; "iflag=direct"; "oflag=nocache"]
                Reference.start) as [Hok _].
    destruct (Hok _ H) as (_ & _ & Hcase & _ & Hin & _).
    split; [exact Hcase | exact Hin].
  - eexists. split; [vm_compute; reflexivity |].
    match goal with |- _ = Exited _ (log _ ?s) => set (s1 := s) end.
    assert (H : resolve_fields
                  (operands ["dd"; "conv=ascii,ebcdic"] Reference.start)
                  Reference.start = Returned tt s1)
      by (vm_compute; reflexivity).
    destruct (exclusive_groups ["dd"; "conv=ascii,ebcdic"] Reference.start)
      as [_ Hrej].
    destruct (Hrej _ H) as [Hascii _].
    apply Hascii. vm_compute. reflexivity.
Defined.

Lemma skip_splitting_run :
  exists s,
    scanargs ["dd"; "ibs=512"; "iflag=skip_bytes"; "skip=1000"]
      Reference.start = Returned tt s
    /\ skip_records s = 1 /\ skip_bytes s = 488.
Proof.
  eexists. split; [vm_compute; reflexivity |].
  match goal with |- skip_records ?s = _ /\ _ => set (s0 := s) end.
  assert (H : scanargs ["dd"; "ibs=512"; "iflag=skip_bytes"; "skip=1000"]
                Reference.start = Returned tt s0)
    by (vm_compute; reflexivity).
  destruct (skip_splitting _ _ _ H eq_refl eq_refl) as [_ Hfinal].
  destruct (Hfinal eq_refl eq_refl) as [Hsplit _].
  assert (Hflag : Z.land (input_flags s0) O_SKIP_BYTES <> 0)
    by (vm_compute; discriminate).
  destruct (Hsplit Hflag) as [Hr Hb].
  vm_compute in Hr, Hb. split; [exact Hr | exact Hb].
Defined.

Lemma warn_partial_read_exactly_run :
  exists s,
    scanargs ["dd"; "bs=512"; "count=10"] Reference.start = Returned tt s
    /\ Z.land (conversions_mask s) C_TWOBUFS = 0
    /\ iread_fnc s = iread
    /\ (0 < skip_records s
        \/ 0 < max_records s < UINTMAX_MAX
        \/ Z.land (Z.lor (input_flags s) (output_flags s)) O_DIRECT <> 0).
Proof.
  eexists. split; [vm_compute; reflexivity |].
  match goal with
  | |- Z.land (conversions_mask ?s) _ = _ /\ _ => set (s0 := s)
  end.
  assert (H : scanargs ["dd"; "bs=512"; "count=10"] Reference.start
              = Returned tt s0)
    by (vm_compute; reflexivity).
  assert (Hr : 0 <= skip_records Reference.start)
    by (vm_compute; discriminate).
  assert (Hi : 0 <= input_blocksize Reference.start)
    by (vm_compute; discriminate).
  destruct (warn_partial_read_exactly _ _ _ H Hr Hi) as [_ Hfinal].
  apply (Hfinal eq_refl eq_refl). reflexivity.
Defined.

Lemma count_sentinel_as_unset_run :
  scanargs ["dd"; "if=a"; "count=18446744073709551615"; "of=b"]
    Reference.start
  = scanargs ["dd"; "if=a"; "of=b"] Reference.start
  /\ exists s,
       scanargs ["dd"; "if=a"; "count=18446744073709551615"; "of=b"]
         Reference.start = Returned tt s
       /\ max_records s = max_records Reference.start
       /\ max_bytes s = max_bytes Reference.start.
Proof.
  assert (Hv : parse_integer "18446744073709551615"
               = (UINTMAX_MAX, LONGINT_OK))
    by (vm_compute; reflexivity).
  destruct (count_sentinel_as_unset
              ["dd"; "if=a"; "count=18446744073709551615"; "of=b"]
              ["if=a"] ["of=b"] "18446744073709551615" Reference.start Hv
              eq_refl) as [Hsame Hunset].
  split.
  - exact (Hsame ["dd"; "if=a"; "of=b"] eq_refl eq_refl).
  - eexists. split; [vm_compute; reflexivity |].
    apply Hunset; vm_compute; reflexivity.
Defined.

End Runs.

(** * Further properties of the code *)

(** ** Further properties: the operand matcher *)

(** X1. [operand_matches str pattern delim] holds exactly when [str] is
    [pattern] itself or [pattern] followed by [delim] and anything: the
    match is a prefix match that must end at the delimiter. *)
Theorem operand_matches_exactly (pattern str : string) (delim : ascii) :
  operand_matches str pattern delim = true
  <-> str = pattern \/ exists rest, str = pattern ++ String delim rest.
Proof.
  revert str. induction pattern as [| p pattern IH]; intros str.
  - destruct str as [| c str]; cbn [operand_matches String.append].
    + split; [left; reflexivity | reflexivity].
    + split.
      * intros H. apply Ascii.eqb_eq in H. subst c.
        right. exists str. reflexivity.
      * intros [H | [rest H]]; [discriminate |].
        injection H as -> _. apply Ascii.eqb_refl.
  - destruct str as [| c str]; cbn [operand_matches String.append].
    + split; [discriminate |].
      intros [H | [rest H]]; discriminate.
    + destruct (Ascii.eqb_spec c p) as [-> | Hne].
      * rewrite IH. split.
        -- intros [-> | [rest ->]]; [left | right; exists rest];
             reflexivity.
        -- intros [H | [rest H]]; injection H as ->;
             [left | right; exists rest]; reflexivity.
      * split; [discriminate |].
        intros [H | [rest H]]; injection H as ? _; contradiction.
Qed.

Lemma no_delim_app_inv p q r r' :
  no_delim p = true -> no_delim q = true ->
  p ++ String "=" r = q ++ String "=" r' -> p = q /\ r = r'.
Proof.
  revert q. induction p as [| a p IH]; intros q Hp Hq H.
  - destruct q as [| b q]; cbn [String.append] in H.
    + injection H as ->. auto.
    + injection H as <- _. cbn in Hq. discriminate.
  - destruct q as [| b q]; cbn [String.append] in H.
    + injection H as -> _. cbn in Hp. discriminate.
    + injection H as -> H. cbn in Hp, Hq.
      apply andb_true_iff in Hp, Hq.
      destruct (IH q (proj2 Hp) (proj2 Hq) H) as [-> ->]. auto.
Qed.

Lemma no_delim_not_app p q r :
  no_delim p = true -> p <> q ++ String "=" r.
Proof.
  revert q. induction p as [| a p IH]; intros q Hp H.
  - destruct q; discriminate.
  - destruct q as [| b q]; cbn [String.append] in H.
    + injection H as -> _. cbn in Hp. discriminate.
    + injection H as _ H. cbn in Hp. apply andb_true_iff in Hp.
      exact (IH q (proj2 Hp) H).
Qed.

(** X2. An operand is recognised under at most one name: when two
    patterns without '=' both match it, they are the same pattern.  So the
    order of the tests in the chain of [scanargs] selects nothing. *)
Theorem operand_is_one_name (name p q : string) :
  no_delim p = true ->
  no_delim q = true ->
  operand_is name p = true ->
  operand_is name q = true ->
  p = q.
Proof.
  intros Hp Hq Hmp Hmq.
  rewrite operand_is_key in Hmp, Hmq by assumption.
  apply String.eqb_eq in Hmp, Hmq. congruence.
Qed.

Lemma operand_is_one_name_run :
  operand_is "iflag=direct" "iflag" = true /\ "iflag" = "iflag".
Proof.
  split; [reflexivity |].
  exact (operand_is_one_name "iflag=direct" "iflag" "iflag"
           eq_refl eq_refl eq_refl eq_refl).
Defined.

(* strchr finds the first '='. *)
Lemma strchr_PNull name :
  strchr name "=" = PNull <-> no_delim name = true.
Proof.
  induction name as [| c name IH]; cbn [strchr no_delim].
  - split; reflexivity.
  - destruct (Ascii.eqb c "="); cbn [negb andb].
    + split; discriminate.
    + exact IH.
Qed.

Lemma strchr_PStr name s :
  strchr name "=" = PStr s <->
  exists key v, no_delim key = true /\ s = String "=" v /\ name = key ++ s.
Proof.
  revert s. induction name as [| c name IH]; intros s; cbn [strchr].
  - split; [discriminate |].
    intros (key & v & _ & -> & H). destruct key; discriminate.
  - destruct (Ascii.eqb_spec c "=") as [-> | Hne].
    + split.
      * intros [= <-]. exists "", name. auto.
      * intros (key & v & Hk & -> & H). destruct key as [| k key].
        -- cbn in H. rewrite H. reflexivity.
        -- cbn in H. injection H as <- _. cbn in Hk. discriminate.
    + rewrite IH. split.
      * intros (key & v & Hk & -> & ->).
        exists (String c key), v. cbn [no_delim].
        apply Ascii.eqb_neq in Hne. rewrite Hne. auto.
      * intros (key & v & Hk & -> & H). destruct key as [| k key].
        -- cbn in H. injection H as ? _. contradiction.
        -- cbn in H. injection H as <- ->. cbn in Hk.
           apply andb_true_iff in Hk. exists key, v. tauto.
Qed.

Lemma strchr_not_invalid name : strchr name "=" <> PInvalid.
Proof.
  induction name as [| c name IH]; cbn [strchr]; [discriminate |].
  destruct (Ascii.eqb c "="); [discriminate | exact IH].
Qed.

(** X3. The value of an operand is the text after its first '=': [val],
    after line 203, points at [v] exactly when the argument is a key
    without '=' followed by '=' and [v] (so [v] may be empty or hold
    further '='); and it is the pointer NULL + 1 exactly when the argument
    has no '='. *)
Theorem operand_value_after_first_delim (name : string) :
  (forall v,
      operand_val name = PStr v
      <-> exists key, no_delim key = true /\ name = key ++ String "=" v)
  /\ (operand_val name = PInvalid <-> no_delim name = true)
  /\ operand_val name <> PNull.
Proof.
  unfold operand_val. split; [| split].
  - intros v. destruct (strchr name "=") as [| s |] eqn:E.
    + cbn [ptr_incr]. split; [discriminate |].
      intros (key & Hk & ->). apply strchr_PNull in E.
      exfalso. exact (no_delim_not_app _ key v E eq_refl).
    + apply strchr_PStr in E. destruct E as (key & w & Hk & -> & ->).
      cbn [ptr_incr]. split.
      * intros [= ->]. exists key. auto.
      * intros (key' & Hk' & H).
        destruct (no_delim_app_inv _ _ _ _ Hk Hk' H) as [_ ->].
        reflexivity.
    + exfalso. exact (strchr_not_invalid _ E).
  - destruct (strchr name "=") as [| s |] eqn:E.
    + apply strchr_PNull in E. cbn [ptr_incr]. tauto.
    + pose proof E as E'. apply strchr_PStr in E'.
      destruct E' as (key & w & Hk & -> & ->). cbn [ptr_incr].
      split; [discriminate |]. intros H. apply strchr_PNull in H.
      rewrite H in E. discriminate.
    + exfalso. exact (strchr_not_invalid _ E).
  - destruct (strchr name "=") as [| [| c s] |]; discriminate.
Qed.

(** ** Further properties: one operand *)

Ltac unfold_step_goal :=
  unfold scan_operand, scan_number, call_parse_symbols, deref, bind, error,
    usage, modify, ret, exit, undefined.

Section OneOperand.
Context {P : Platform}.

Lemma operand_is_no_delim name pattern :
  no_delim name = true ->
  no_delim pattern = true ->
  operand_is name pattern = String.eqb name pattern.
Proof.
  intros Hn Hp. rewrite operand_is_key by exact Hp.
  replace (operand_key name) with name; [reflexivity |].
  clear Hp. induction name as [| c name IH]; [reflexivity |].
  cbn [no_delim] in Hn. apply andb_true_iff in Hn. destruct Hn as [Hc Hn].
  apply negb_true_iff in Hc. cbn [operand_key]. rewrite Hc.
  rewrite <- (IH Hn). reflexivity.
Qed.

(** X4. An argument without '=' gets the diagnostic "unrecognized operand"
    and the "Try ..." line, and the iteration goes on with [val] = NULL + 1:
    the arguments "if" and "of" store that pointer as the file name and the
    iteration completes; for every other argument the pointer is handed to
    [parse_symbols] or [parse_integer], which read through it. *)
Theorem operand_without_delim (name : string) (l : locals) (g : globals) :
  strchr name "=" = PNull ->
  let g' :=
    log (Fprintf_stderr "Try 'dd --help' for more information.")
      (log (Error_msg 0 ("unrecognized operand " ++ name)) g) in
  scan_operand name l g
  = if String.eqb name "if" then Returned l (set_input_file PInvalid g')
    else if String.eqb name "of" then Returned l (set_output_file PInvalid g')
    else Undefined.
Proof.
  intros Hnull. cbv zeta. pose proof Hnull as Hnd.
  apply strchr_PNull in Hnd.
  unfold_step_goal. rewrite Hnull.
  rewrite !(operand_is_no_delim name) by (exact Hnd || reflexivity).
  cbn [ptr_incr Z.eqb negb].
  destruct (String.eqb name "if"); [reflexivity |].
  destruct (String.eqb name "of"); [reflexivity |].
  destruct (String.eqb name "conv"); [reflexivity |].
  destruct (String.eqb name "iflag"); [reflexivity |].
  destruct (String.eqb name "oflag"); [reflexivity |].
  destruct (String.eqb name "status"); reflexivity.
Qed.

Lemma to_uintmax_range z : 0 <= to_uintmax z <= UINTMAX_MAX.
Proof.
  unfold to_uintmax, UINTMAX_MAX.
  pose proof (Z.mod_pos_bound z (2 ^ 64) eq_refl). lia.
Qed.

Lemma operand_val_strchr name v :
  operand_val name = PStr v ->
  exists c, strchr name "=" = PStr (String c v).
Proof.
  unfold operand_val.
  destruct (strchr name "=") as [| [| c s] |]; try discriminate.
  cbn [ptr_incr]. intros [= ->]. exists c. reflexivity.
Qed.

(** X5. An operand that carries a number ([ibs], [obs], [bs], [cbs],
    [skip], [seek], [count]) with the value text [v]: the iteration
    completes exactly when [parse_integer] reports no error and the number
    lies between the minimum and the maximum of that operand, and then it
    stores the number and writes nothing.  Otherwise the process ends with
    status [EXIT_FAILURE] and the one diagnostic "invalid number: 'v'",
    which carries [EOVERFLOW] exactly when the number is not below the
    minimum and either exceeds the maximum or was reported as an overflow
    by [parse_integer]. *)
Theorem number_operand_outcome
    (name v : string) (l : locals) (g : globals) (k : opname) :
  operand_is name (opname_string k) = true ->
  is_number k = true ->
  operand_val name = PStr v ->
  let n := to_uintmax (fst (parse_integer v)) in
  let status := snd (parse_integer v) in
  (number_min k <= n <= number_max k ->
   status = LONGINT_OK ->
   exists l' g',
     scan_operand name l g = Returned l' g'
     /\ raw_field k l' g' = RNum n
     /\ events g' = events g)
  /\ (~ (number_min k <= n <= number_max k /\ status = LONGINT_OK) ->
      exists g1,
        scan_operand name l g = Exited EXIT_FAILURE g1
        /\ events g1
           = (events g
              ++ [Error_msg
                    (if (number_min k <=? n)
                        && ((number_max k <? n)
                            || strtol_error_eqb status LONGINT_OVERFLOW)
                     then EOVERFLOW else 0)
                    ("invalid number: " ++ quote v)])%list).
Proof.
  intros Hk Hnum Hval. cbv zeta.
  rewrite operand_is_opname in Hk. apply String.eqb_eq in Hk.
  destruct (operand_val_strchr _ _ Hval) as [c Hs].
  unfold_step_goal. unfold bind, modify, ret, exit.
  rewrite !operand_is_key by reflexivity. rewrite Hk, Hs.
  destruct k; try discriminate Hnum;
    cbn [opname_string String.eqb Ascii.eqb Bool.eqb ptr_incr number_min
         number_max raw_field];
    set (n := to_uintmax (fst (parse_integer v)));
    set (status := snd (parse_integer v));
    (split;
     [ intros [Hlo Hhi] Hok;
       apply Z.ltb_ge in Hlo; apply Z.ltb_ge in Hhi;
       cbn [fst snd]; rewrite Hlo, Hhi, Hok; cbn;
       eexists; eexists; split; [reflexivity | split; reflexivity]
     | intros Hbad; cbn [fst snd];
       match goal with
       | |- context [n <? ?lo] =>
           destruct (Z.ltb_spec n lo) as [Hlo | Hlo]
       end;
       [ replace (_ <=? n) with false by (symmetry; apply Z.leb_gt; lia);
         cbn; eexists; split; reflexivity
       | replace (_ <=? n) with true by (symmetry; apply Z.leb_le; lia);
         match goal with
         | |- context [?hi <? n] =>
             destruct (Z.ltb_spec hi n) as [Hhi | Hhi]
         end;
         [ cbn; eexists; split; reflexivity
         | destruct status eqn:Est;
           [ exfalso; apply Hbad; split; [lia | reflexivity]
           | cbn; eexists; split; reflexivity .. ] ] ] ]).
Qed.

(** X6. An operand with '=' whose key is none of the thirteen names gets
    the diagnostic "unrecognized operand" with the quoted argument and the
    "Try ..." line; its value is still read as a number: when
    [parse_integer] reports no error the iteration completes and changes
    nothing else, and on an error the process ends with status
    [EXIT_FAILURE] after a second diagnostic "invalid number". *)
Theorem unrecognized_operand_outcome
    (name v : string) (l : locals) (g : globals) :
  operand_val name = PStr v ->
  (forall k, operand_is name (opname_string k) = false) ->
  let g' :=
    log (Fprintf_stderr "Try 'dd --help' for more information.")
      (log (Error_msg 0 ("unrecognized operand " ++ quote name)) g) in
  scan_operand name l g
  = match snd (parse_integer v) with
    | LONGINT_OK => Returned l g'
    | LONGINT_OVERFLOW =>
        Exited EXIT_FAILURE
          (log (Error_msg EOVERFLOW ("invalid number: " ++ quote v)) g')
    | _ =>
        Exited EXIT_FAILURE
          (log (Error_msg 0 ("invalid number: " ++ quote v)) g')
    end.
Proof.
  intros Hval Hnone. cbv zeta.
  destruct (operand_val_strchr _ _ Hval) as [c Hs].
  unfold_step_goal. unfold bind, modify, ret, exit. rewrite Hs.
  pose proof (Hnone Kif) as H1. pose proof (Hnone Kof) as H2.
  pose proof (Hnone Kconv) as H3. pose proof (Hnone Kiflag) as H4.
  pose proof (Hnone Koflag) as H5. pose proof (Hnone Kstatus) as H6.
  pose proof (Hnone Kibs) as H7. pose proof (Hnone Kobs) as H8.
  pose proof (Hnone Kbs) as H9. pose proof (Hnone Kcbs) as H10.
  pose proof (Hnone Kskip) as H11. pose proof (Hnone Kseek) as H12.
  pose proof (Hnone Kcount) as H13.
  cbn [opname_string] in *.
  rewrite H1, H2, H3, H4, H5, H6, H7, H8, H9, H10, H11, H12, H13.
  cbn [ptr_incr fst snd Z.eqb negb EXIT_FAILURE EXIT_SUCCESS].
  destruct (to_uintmax_range (fst (parse_integer v))) as [Hlo Hhi].
  apply Z.ltb_ge in Hlo. apply Z.ltb_ge in Hhi. rewrite Hlo, Hhi.
  destruct (snd (parse_integer v)); reflexivity.
Qed.

End OneOperand.

Lemma number_operand_outcome_run :
  exists l' g',
    scan_operand (P := Reference.platform) "skip=7" initial_locals
      Reference.start = Returned l' g'
    /\ raw_field Kskip l' g' = RNum 7
    /\ events g' = events Reference.start.
Proof.
  destruct (number_operand_outcome (P := Reference.platform) "skip=7" "7"
              initial_locals Reference.start Kskip eq_refl eq_refl eq_refl)
    as [Hok _].
  apply Hok; [vm_compute; split; discriminate | reflexivity].
Defined.

Lemma unrecognized_operand_outcome_run :
  scan_operand (P := Reference.platform) "foo=1" initial_locals
    Reference.start
  = Returned initial_locals
      (log (Fprintf_stderr "Try 'dd --help' for more information.")
         (log (Error_msg 0 "unrecognized operand 'foo=1'")
            Reference.start)).
Proof.
  apply (unrecognized_operand_outcome (P := Reference.platform) "foo=1" "1"
           initial_locals Reference.start eq_refl).
  intros k. destruct k; reflexivity.
Defined.

Lemma operand_without_delim_run :
  scan_operand (P := Reference.platform) "of" initial_locals Reference.start
  = Returned initial_locals
      (set_output_file PInvalid
         (log (Fprintf_stderr "Try 'dd --help' for more information.")
            (log (Error_msg 0 "unrecognized operand of") Reference.start))).
Proof.
  exact (operand_without_delim (P := Reference.platform) "of" initial_locals
           Reference.start eq_refl).
Defined.

(** ** Further properties: the resolved plan *)

Section MoreFields.
Context {P : Platform}.

(* The remaining variables through each block. *)
Lemma resolve_blocksizes_rest l g :
  let r := resolve_blocksizes l g in
  input_file r = input_file g
  /\ output_file r = output_file g
  /\ status_level r = status_level g
  /\ seek_records r = seek_records g
  /\ seek_bytes r = seek_bytes g
  /\ optind r = optind g
  /\ page_size r = page_size g
  /\ events r = events g.
Proof.
  cbv zeta. rewrite resolve_blocksizes_eq. repeat split; reflexivity.
Qed.

Lemma set_events_rest ev g :
  let r := set_events ev g in
  input_file r = input_file g
  /\ output_file r = output_file g
  /\ status_level r = status_level g
  /\ seek_records r = seek_records g
  /\ seek_bytes r = seek_bytes g
  /\ optind r = optind g
  /\ page_size r = page_size g
  /\ events r = ev.
Proof. cbv zeta. repeat split; reflexivity. Qed.

Lemma derive_offsets_rest l g :
  let d := derive_offsets l g in
  input_file d = input_file g
  /\ output_file d = output_file g
  /\ status_level d = status_level g
  /\ seek_records d
     = (if nonzero (Z.land (output_flags g) O_SEEK_BYTES) && nonzero (seek l)
        then seek l / output_blocksize g
        else if nonzero (seek l) then seek l else seek_records g)
  /\ seek_bytes d
     = (if nonzero (Z.land (output_flags g) O_SEEK_BYTES) && nonzero (seek l)
        then seek l mod output_blocksize g else seek_bytes g)
  /\ optind d = optind g
  /\ page_size d = page_size g
  /\ events d = events g.
Proof.
  cbv zeta. rewrite derive_offsets_eq. repeat split; reflexivity.
Qed.

Lemma choose_read_strategy_rest g :
  let c := choose_read_strategy g in
  input_file c = input_file g
  /\ output_file c = output_file g
  /\ status_level c = status_level g
  /\ seek_records c = seek_records g
  /\ seek_bytes c = seek_bytes g
  /\ optind c = optind g
  /\ page_size c = page_size g
  /\ events c = events g.
Proof.
  cbv zeta. unfold choose_read_strategy. repeat split; reflexivity.
Qed.

Lemma extract_nocache_rest g :
  let s := extract_nocache g in
  input_file s = input_file g
  /\ output_file s = output_file g
  /\ status_level s = status_level g
  /\ seek_records s = seek_records g
  /\ seek_bytes s = seek_bytes g
  /\ optind s = optind g
  /\ page_size s = page_size g
  /\ events s = events g.
Proof.
  cbv zeta. rewrite extract_nocache_eq. repeat split; reflexivity.
Qed.

End MoreFields.

Ltac plan_rest l g ev :=
  let H := fresh "H" in
  pose proof (extract_nocache_rest
                (choose_read_strategy
                   (derive_offsets l
                      (set_events ev (resolve_blocksizes l g))))) as H;
  use_conj H;
  pose proof (choose_read_strategy_rest
                (derive_offsets l
                   (set_events ev (resolve_blocksizes l g)))) as H;
  use_conj H;
  pose proof (derive_offsets_rest l
                (set_events ev (resolve_blocksizes l g))) as H;
  use_conj H;
  pose proof (set_events_rest ev (resolve_blocksizes l g)) as H;
  use_conj H;
  pose proof (resolve_blocksizes_rest l g) as H;
  use_conj H.

Lemma RPtr_inj a b : RPtr a = RPtr b -> a = b.
Proof. intros [= ->]. reflexivity. Qed.

Section MorePlan.
Context {P : Platform}.

(* A field after the pass: what its last operand stored, else the start
   value. *)
Lemma field_after_pass k args l g l' g' :
  accumulates k = false ->
  scan_operands args l g = Returned l' g' ->
  raw_field k l' g'
  = match last_operand (opname_string k) args with
    | Some a => operand_raw k a
    | None => raw_field k l g
    end.
Proof.
  intros Hacc H.
  destruct (last_operand (opname_string k) args) as [a |] eqn:Hl.
  - exact (scan_operands_last k args Hacc _ _ _ _ _ H Hl).
  - exact (scan_operands_untouched k args _ _ _ _ H Hl).
Qed.

(** X7. In a run of [scanargs] that completes, the input file, the output
    file, the status level and the conversion block size are what the last
    [if], [of], [status] and [cbs] operand stored (for a file, the pointer
    to the text after the first '='), and their start values when there is
    no such operand: the resolver changes none of them. *)
Theorem files_status_cbs_from_last_operand
    (argv : list string) (g0 s : globals) :
  scanargs argv g0 = Returned tt s ->
  input_file s
  = match last_operand "if" (operands argv g0) with
    | Some a => operand_val a
    | None => input_file g0
    end
  /\ output_file s
     = match last_operand "of" (operands argv g0) with
       | Some a => operand_val a
       | None => output_file g0
       end
  /\ RNum (status_level s)
     = match last_operand "status" (operands argv g0) with
       | Some a => operand_raw Kstatus a
       | None => RNum (status_level g0)
       end
  /\ conversion_blocksize s
     = match last_operand "cbs" (operands argv g0) with
       | Some a => operand_number a
       | None => conversion_blocksize g0
       end.
Proof.
  intros H.
  destruct (scanargs_Returned _ _ _ H) as (l1 & g1 & ev & Hscan & Hs).
  cbv zeta in Hs. destruct Hs as (_ & _ & ->). clear H.
  pose proof (field_after_pass Kif _ _ _ _ _ eq_refl Hscan) as Hif.
  pose proof (field_after_pass Kof _ _ _ _ _ eq_refl Hscan) as Hof.
  pose proof (field_after_pass Kstatus _ _ _ _ _ eq_refl Hscan) as Hst.
  pose proof (field_after_pass Kcbs _ _ _ _ _ eq_refl Hscan) as Hcbs.
  cbn [raw_field opname_string] in Hif, Hof, Hst, Hcbs.
  plan_rest l1 g1 ev. plan_fields l1 g1 ev.
  repeat split.
  - destruct (last_operand "if" (operands argv g0));
      apply RPtr_inj in Hif; exact Hif.
  - destruct (last_operand "of" (operands argv g0));
      apply RPtr_inj in Hof; exact Hof.
  - exact Hst.
  - destruct (last_operand "cbs" (operands argv g0));
      apply RNum_inj in Hcbs; exact Hcbs.
Qed.

(** X8. Count splitting (lines 330-336).  In a run of [scanargs] that
    completes, let N be the number of the last [count] operand, B the
    final input block size and [r] the state in which line 330 is
    reached.  When N is not the sentinel [UINTMAX_MAX] (0 counts as set):
    with O_COUNT_BYTES in the input flags of [r],
    [max_records = N / B] and [max_bytes = N mod B]; without it,
    [max_records = N] and [max_bytes] keeps its start value.  The same
    holds with the flag read in the final input flags when O_COUNT_BYTES
    shares no bit with O_FULLBLOCK and O_NOCACHE. *)
Theorem count_splitting (argv : list string) (g0 s : globals) (a : string) :
  scanargs argv g0 = Returned tt s ->
  last_operand "count" (operands argv g0) = Some a ->
  operand_number a <> UINTMAX_MAX ->
  let N := operand_number a in
  let B := input_blocksize s in
  (exists l1 g1 ev,
      scan_operands (operands argv g0) initial_locals g0 = Returned l1 g1
      /\ let r := set_events ev (resolve_blocksizes l1 g1) in
         s = extract_nocache (choose_read_strategy (derive_offsets l1 r))
         /\ (Z.land (input_flags r) O_COUNT_BYTES <> 0 ->
             max_records s = N / B /\ max_bytes s = N mod B)
         /\ (Z.land (input_flags r) O_COUNT_BYTES = 0 ->
             max_records s = N /\ max_bytes s = max_bytes g0))
  /\ (Z.land O_COUNT_BYTES O_FULLBLOCK = 0 ->
      Z.land O_COUNT_BYTES O_NOCACHE = 0 ->
      (Z.land (input_flags s) O_COUNT_BYTES <> 0 ->
       max_records s = N / B /\ max_bytes s = N mod B)
      /\ (Z.land (input_flags s) O_COUNT_BYTES = 0 ->
          max_records s = N /\ max_bytes s = max_bytes g0)).
Proof.
  intros H Hlast Hset.
  destruct (scanargs_Returned _ _ _ H) as (l1 & g1 & ev & Hscan & Hs).
  cbv zeta in Hs. destruct Hs as (_ & _ & ->). clear H.
  pose proof (count_after_pass _ _ _ _ Hscan) as Hc. rewrite Hlast in Hc.
  rewrite <- Hc in Hset |- *.
  pose proof (scan_operands_derived _ _ _ _ _ Hscan) as Hd.
  unfold derived_part in Hd.
  injection Hd as _ _ _ _ _ _ _ Hmb _ _ _ _.
  apply Z.eqb_neq in Hset.
  cbv zeta.
  assert (Hsplit :
            forall f b mr,
              (Z.land f O_COUNT_BYTES <> 0 ->
               (if nonzero (Z.land f O_COUNT_BYTES)
                   && negb (count l1 =? UINTMAX_MAX)
                then count l1 / b
                else if negb (count l1 =? UINTMAX_MAX) then count l1 else mr)
               = count l1 / b
               /\ (if nonzero (Z.land f O_COUNT_BYTES)
                      && negb (count l1 =? UINTMAX_MAX)
                   then count l1 mod b else max_bytes g0)
                  = count l1 mod b)
              /\ (Z.land f O_COUNT_BYTES = 0 ->
                  (if nonzero (Z.land f O_COUNT_BYTES)
                      && negb (count l1 =? UINTMAX_MAX)
                   then count l1 / b
                   else if negb (count l1 =? UINTMAX_MAX) then count l1
                        else mr)
                  = count l1
                  /\ (if nonzero (Z.land f O_COUNT_BYTES)
                         && negb (count l1 =? UINTMAX_MAX)
                      then count l1 mod b else max_bytes g0)
                     = max_bytes g0)).
  { intros f b mr. rewrite Hset. cbn [negb]. split.
    - intros Hf. apply nonzero_true in Hf. rewrite Hf. split; reflexivity.
    - intros Hf. apply nonzero_false in Hf. rewrite Hf. split; reflexivity. }
  split.
  - exists l1, g1, ev. split; [exact Hscan |]. cbv zeta.
    split; [reflexivity |].
    plan_fields l1 g1 ev. rewrite Hmb. apply Hsplit.
  - intros Hfull Hnc. plan_fields l1 g1 ev.
    rewrite (final_flag_bits _ _ Hfull Hnc), Hmb. apply Hsplit.
Qed.

Lemma seek_after_pass args g0 l1 g1 :
  scan_operands args initial_locals g0 = Returned l1 g1 ->
  seek l1 = match last_operand "seek" args with
            | Some a => operand_number a
            | None => 0
            end.
Proof.
  intros H.
  pose proof (field_after_pass Kseek _ _ _ _ _ eq_refl H) as Hf.
  cbn [raw_field opname_string] in Hf.
  destruct (last_operand "seek" args); apply RNum_inj in Hf; exact Hf.
Qed.

(** X9. Seek splitting (lines 338-344).  In a run of [scanargs] that
    completes from a state with [seek_records] and [seek_bytes] zero, let
    N be the number of the last [seek] operand (0 without one), B the
    final output block size and [r] the state in which line 338 is
    reached.  With O_SEEK_BYTES in the output flags of [r],
    [seek_records = N / B] and [seek_bytes = N mod B]; without it and with
    N not 0, [seek_records = N] and [seek_bytes = 0].  The same holds with
    the flag read in the final output flags when O_SEEK_BYTES shares no
    bit with O_NOCACHE. *)
Theorem seek_splitting (argv : list string) (g0 s : globals) :
  scanargs argv g0 = Returned tt s ->
  seek_records g0 = 0 ->
  seek_bytes g0 = 0 ->
  let N := match last_operand "seek" (operands argv g0) with
           | Some a => operand_number a
           | None => 0
           end in
  let B := output_blocksize s in
  (exists l1 g1 ev,
      scan_operands (operands argv g0) initial_locals g0 = Returned l1 g1
      /\ let r := set_events ev (resolve_blocksizes l1 g1) in
         s = extract_nocache (choose_read_strategy (derive_offsets l1 r))
         /\ output_blocksize r = B
         /\ (Z.land (output_flags r) O_SEEK_BYTES <> 0 ->
             seek_records s = N / B /\ seek_bytes s = N mod B)
         /\ (Z.land (output_flags r) O_SEEK_BYTES = 0 ->
             N <> 0 ->
             seek_records s = N /\ seek_bytes s = 0))
  /\ (Z.land O_SEEK_BYTES O_NOCACHE = 0 ->
      (Z.land (output_flags s) O_SEEK_BYTES <> 0 ->
       seek_records s = N / B /\ seek_bytes s = N mod B)
      /\ (Z.land (output_flags s) O_SEEK_BYTES = 0 ->
          N <> 0 ->
          seek_records s = N /\ seek_bytes s = 0)).
Proof.
  intros H Hr0 Hb0.
  destruct (scanargs_Returned _ _ _ H) as (l1 & g1 & ev & Hscan & Hs).
  cbv zeta in Hs. destruct Hs as (_ & _ & ->). clear H.
  rewrite <- (seek_after_pass _ _ _ _ Hscan).
  pose proof (scan_operands_derived _ _ _ _ _ Hscan) as Hd.
  unfold derived_part in Hd.
  injection Hd as _ _ _ _ Hsr Hsb _ _ _ _ _ _.
  cbv zeta.
  assert (Hsplit :
            forall f b,
              (Z.land f O_SEEK_BYTES <> 0 ->
               (if nonzero (Z.land f O_SEEK_BYTES) && nonzero (seek l1)
                then seek l1 / b
                else if nonzero (seek l1) then seek l1 else 0)
               = seek l1 / b
               /\ (if nonzero (Z.land f O_SEEK_BYTES) && nonzero (seek l1)
                   then seek l1 mod b else 0)
                  = seek l1 mod b)
              /\ (Z.land f O_SEEK_BYTES = 0 ->
                  seek l1 <> 0 ->
                  (if nonzero (Z.land f O_SEEK_BYTES) && nonzero (seek l1)
                   then seek l1 / b
                   else if nonzero (seek l1) then seek l1 else 0)
                  = seek l1
                  /\ (if nonzero (Z.land f O_SEEK_BYTES)
                         && nonzero (seek l1)
                      then seek l1 mod b else 0)
                     = 0)).
  { intros f b. split.
    - intros Hset. apply nonzero_true in Hset. rewrite Hset. cbn [andb].
      destruct (nonzero (seek l1)) eqn:Hn; [split; reflexivity |].
      apply nonzero_false in Hn. rewrite Hn.
      rewrite Zdiv_0_l, Zmod_0_l. split; reflexivity.
    - intros Hclear Hn. apply nonzero_false in Hclear.
      apply nonzero_true in Hn. rewrite Hclear, Hn. cbn [andb].
      split; reflexivity. }
  split.
  - exists l1, g1, ev. split; [exact Hscan |]. cbv zeta.
    split; [reflexivity |].
    plan_rest l1 g1 ev. plan_fields l1 g1 ev. rewrite Hsr, Hsb, Hr0, Hb0.
    split; [reflexivity |]. apply Hsplit.
  - intros Hnc. plan_rest l1 g1 ev. plan_fields l1 g1 ev.
    rewrite (final_oflag_bits _ _ Hnc), Hsr, Hsb, Hr0, Hb0.
    apply Hsplit.
Qed.

End MorePlan.

Section MorePlanRuns.

Local Existing Instance Reference.platform.

Lemma files_status_cbs_from_last_operand_run :
  exists s,
    scanargs (P := Reference.platform)
      ["dd"; "if=a"; "of=x=y"; "if=/dev/zero"; "cbs=80"] Reference.start
    = Returned tt s
    /\ input_file s = PStr "/dev/zero"
    /\ output_file s = PStr "x=y"
    /\ conversion_blocksize s = 80.
Proof.
  eexists. split; [vm_compute; reflexivity |].
  match goal with |- input_file ?s = _ /\ _ => set (s0 := s) end.
  assert (H : scanargs (P := Reference.platform)
                ["dd"; "if=a"; "of=x=y"; "if=/dev/zero"; "cbs=80"]
                Reference.start = Returned tt s0)
    by (vm_compute; reflexivity).
  destruct (files_status_cbs_from_last_operand _ _ _ H)
    as (Hif & Hof & _ & Hcbs).
  vm_compute in Hif, Hof, Hcbs.
  split; [exact Hif | split; [exact Hof | exact Hcbs]].
Defined.

Lemma count_splitting_run :
  exists s,
    scanargs (P := Reference.platform)
      ["dd"; "bs=512"; "count=1030"; "iflag=count_bytes"] Reference.start
    = Returned tt s
    /\ max_records s = 2 /\ max_bytes s = 6.
Proof.
  eexists. split; [vm_compute; reflexivity |].
  match goal with |- max_records ?s = _ /\ _ => set (s0 := s) end.
  assert (H : scanargs (P := Reference.platform)
                ["dd"; "bs=512"; "count=1030"; "iflag=count_bytes"]
                Reference.start = Returned tt s0)
    by (vm_compute; reflexivity).
  assert (Hl : last_operand "count"
                 (operands ["dd"; "bs=512"; "count=1030"; "iflag=count_bytes"]
                    Reference.start) = Some "count=1030")
    by (vm_compute; reflexivity).
  assert (Hn : operand_number (P := Reference.platform) "count=1030"
               <> UINTMAX_MAX)
    by (intros E; vm_compute in E; discriminate E).
  destruct (count_splitting _ _ _ _ H Hl Hn) as [_ Hfinal].
  destruct (Hfinal eq_refl eq_refl) as [Hsplit _].
  assert (Hflag : Z.land (input_flags s0) O_COUNT_BYTES <> 0)
    by (vm_compute; discriminate).
  destruct (Hsplit Hflag) as [Hr Hb].
  vm_compute in Hr, Hb. split; [exact Hr | exact Hb].
Defined.

Lemma seek_splitting_run :
  exists s,
    scanargs (P := Reference.platform)
      ["dd"; "obs=512"; "seek=1030"; "oflag=seek_bytes"] Reference.start
    = Returned tt s
    /\ seek_records s = 2 /\ seek_bytes s = 6.
Proof.
  eexists. split; [vm_compute; reflexivity |].
  match goal with |- seek_records ?s = _ /\ _ => set (s0 := s) end.
  assert (H : scanargs (P := Reference.platform)
                ["dd"; "obs=512"; "seek=1030"; "oflag=seek_bytes"]
                Reference.start = Returned tt s0)
    by (vm_compute; reflexivity).
  destruct (seek_splitting _ _ _ H eq_refl eq_refl) as [_ Hfinal].
  destruct (Hfinal eq_refl) as [Hsplit _].
  assert (Hflag : Z.land (output_flags s0) O_SEEK_BYTES <> 0)
    by (vm_compute; discriminate).
  destruct (Hsplit Hflag) as [Hr Hb].
  vm_compute in Hr, Hb. split; [exact Hr | exact Hb].
Defined.

End MorePlanRuns.

(** ** Further properties: the flag sets *)

Lemma testbit_land_clear f x n :
  Z.testbit (Z.land f (Z.lnot x)) n = true -> Z.testbit f n = true.
Proof.
  destruct (Z.neg_nonneg_cases n) as [Hn | Hn];
    [rewrite Z.testbit_neg_r by exact Hn; discriminate |].
  rewrite Z.land_spec. intros H. apply andb_true_iff in H. tauto.
Qed.

Lemma nonzero_has_bit z :
  z <> 0 -> exists n, 0 <= n /\ Z.testbit z n = true.
Proof.
  intros Hz. destruct (Z.lt_trichotomy z 0) as [Hneg | [-> | Hpos]].
  - exists (Z.succ (Z.log2 (Z.abs z))). split.
    + pose proof (Z.log2_nonneg (Z.abs z)). lia.
    + apply Z.bits_iff_neg'. exact Hneg.
  - contradiction.
  - exists (Z.log2 z). split; [apply Z.log2_nonneg | apply Z.bit_log2, Hpos].
Qed.

Lemma land_has_common_bit a b :
  Z.land a b <> 0 ->
  exists n, 0 <= n /\ Z.testbit a n = true /\ Z.testbit b n = true.
Proof.
  intros H. destruct (nonzero_has_bit _ H) as (n & Hn & Hb).
  rewrite Z.land_spec in Hb. apply andb_true_iff in Hb.
  exists n. tauto.
Qed.

Lemma land_no_common_bit a b :
  (forall n, 0 <= n -> Z.testbit a n = true -> Z.testbit b n = false) ->
  Z.land a b = 0.
Proof.
  intros H. apply Z.bits_inj'. intros n Hn.
  rewrite Z.land_spec, Z.bits_0.
  destruct (Z.testbit a n) eqn:Ea; [| reflexivity].
  rewrite (H n Hn Ea). reflexivity.
Qed.

(* What is left of [f] after clearing [x] has no bit of [x]. *)
Lemma land_cleared_subset f x y :
  (forall n, Z.testbit y n = true ->
             Z.testbit (Z.land f (Z.lnot x)) n = true) ->
  Z.land y x = 0.
Proof.
  intros Hsub. apply land_no_common_bit. intros n Hn Hy.
  specialize (Hsub n Hy). rewrite Z.land_spec, Z.lnot_spec in Hsub
    by exact Hn.
  apply andb_true_iff in Hsub. destruct Hsub as [_ Hx].
  apply negb_true_iff in Hx. exact Hx.
Qed.

Section FlagSets.
Context {P : Platform}.

(** X10. The sync alias (lines 299-300) and what else the resolver does to
    the flag sets.  In a run of [scanargs] that completes, with [g1] the
    state the operand pass left: when the input flags of [g1] contain a
    bit of O_DSYNC or O_SYNC, the final input flags contain O_RSYNC
    (provided O_RSYNC shares no bit with O_FULLBLOCK and O_NOCACHE, which
    are cleared later); every bit of the final input flags was in the
    input flags of [g1] or is a bit of O_RSYNC added that way; and every
    bit of the final output flags was in the output flags of [g1]. *)
Theorem rsync_alias_only_addition (argv : list string) (g0 s : globals) :
  scanargs argv g0 = Returned tt s ->
  exists l1 g1,
    scan_operands (operands argv g0) initial_locals g0 = Returned l1 g1
    /\ (Z.land (input_flags g1) (Z.lor O_DSYNC O_SYNC) <> 0 ->
        Z.land O_RSYNC O_FULLBLOCK = 0 ->
        Z.land O_RSYNC O_NOCACHE = 0 ->
        Z.land (input_flags s) O_RSYNC = O_RSYNC)
    /\ (forall n,
           Z.testbit (input_flags s) n = true ->
           Z.testbit (input_flags g1) n = true
           \/ (Z.testbit O_RSYNC n = true
               /\ Z.land (input_flags g1) (Z.lor O_DSYNC O_SYNC) <> 0))
    /\ (forall n,
           Z.testbit (output_flags s) n = true ->
           Z.testbit (output_flags g1) n = true).
Proof.
  intros H.
  destruct (scanargs_Returned _ _ _ H) as (l1 & g1 & ev & Hscan & Hs).
  cbv zeta in Hs. destruct Hs as (_ & _ & ->). clear H.
  exists l1, g1. split; [exact Hscan |].
  plan_fields l1 g1 ev.
  split; [| split].
  - intros Hsync Hfull Hnc. rewrite (final_flag_bits _ _ Hfull Hnc).
    apply nonzero_true in Hsync. rewrite Hsync. apply land_lor_same.
  - intros n Hbit.
    assert (Hr : Z.testbit
                   (if nonzero (Z.land (input_flags g1)
                                  (Z.lor O_DSYNC O_SYNC))
                    then Z.lor (input_flags g1) O_RSYNC
                    else input_flags g1) n = true).
    { match type of Hbit with
      | Z.testbit (if ?c then _ else _) _ = _ => destruct c
      end.
      - apply testbit_land_clear in Hbit.
        apply testbit_land_clear in Hbit. exact Hbit.
      - apply testbit_land_clear in Hbit. exact Hbit. }
    destruct (nonzero (Z.land (input_flags g1) (Z.lor O_DSYNC O_SYNC)))
      eqn:Hsync.
    + apply nonzero_true in Hsync. rewrite Z.lor_spec in Hr.
      apply orb_true_iff in Hr. tauto.
    + left. exact Hr.
  - intros n Hbit.
    destruct (nonzero (Z.land (output_flags g1) O_NOCACHE)).
    + apply testbit_land_clear in Hbit. exact Hbit.
    + exact Hbit.
Qed.

(** X11. What the final flag sets never hold (lines 359 and 373-382).  In
    a run of [scanargs] that completes, the final input flags have no bit
    of O_FULLBLOCK and no bit of O_NOCACHE, and the final output flags
    have no bit of O_NOCACHE: these requests live on only in [iread_fnc],
    [i_nocache] and [o_nocache].  [i_nocache] is true at the end exactly
    when it was true at the start or the input flags tested at line 373
    (state [s1]) contain a bit of O_NOCACHE, and likewise [o_nocache]. *)
Theorem consumed_flags_are_cleared (argv : list string) (g0 s : globals) :
  scanargs argv g0 = Returned tt s ->
  Z.land (input_flags s) O_FULLBLOCK = 0
  /\ Z.land (input_flags s) O_NOCACHE = 0
  /\ Z.land (output_flags s) O_NOCACHE = 0
  /\ exists s1,
       resolve_fields (operands argv g0) g0 = Returned tt s1
       /\ s = extract_nocache s1
       /\ (i_nocache s = true
           <-> i_nocache g0 = true
               \/ Z.land (input_flags s1) O_NOCACHE <> 0)
       /\ (o_nocache s = true
           <-> o_nocache g0 = true
               \/ Z.land (output_flags s1) O_NOCACHE <> 0).
Proof.
  intros H.
  destruct (scanargs_Returned _ _ _ H) as (l1 & g1 & ev & Hscan & Hs).
  cbv zeta in Hs. destruct Hs as (Hfields & _ & ->). clear H.
  pose proof (scan_operands_derived _ _ _ _ _ Hscan) as Hd.
  unfold derived_part in Hd.
  injection Hd as _ _ _ _ _ _ _ _ _ _ Hin Hon.
  set (d := derive_offsets l1 (set_events ev (resolve_blocksizes l1 g1)))
    in *.
  assert (Hd_in : i_nocache (choose_read_strategy d) = i_nocache g0
                  /\ o_nocache (choose_read_strategy d) = o_nocache g0).
  { unfold d. plan_fields l1 g1 ev. split; assumption. }
  destruct Hd_in as [Hci Hco].
  destruct (extract_nocache_fields (choose_read_strategy d))
    as (_ & _ & _ & _ & Ein & Eout & _ & _ & _ & _ & Ei & Eo & _).
  destruct (choose_read_strategy_fields d)
    as (_ & _ & _ & _ & Cin & _).
  split; [| split; [| split]].
  - rewrite Ein. apply land_cleared_subset with (f := input_flags d).
    intros n Hbit. rewrite <- Cin.
    destruct (nonzero (Z.land (input_flags (choose_read_strategy d))
                         O_NOCACHE)).
    + apply testbit_land_clear in Hbit. exact Hbit.
    + exact Hbit.
  - rewrite Ein.
    destruct (nonzero (Z.land (input_flags (choose_read_strategy d))
                         O_NOCACHE)) eqn:E.
    + apply land_clear_same.
    + apply nonzero_false in E. exact E.
  - rewrite Eout.
    destruct (nonzero (Z.land (output_flags (choose_read_strategy d))
                         O_NOCACHE)) eqn:E.
    + apply land_clear_same.
    + apply nonzero_false in E. exact E.
  - exists (choose_read_strategy d).
    split; [exact Hfields | split; [reflexivity |]].
    rewrite Ei, Eo, Hci, Hco. split.
    + destruct (nonzero (Z.land (input_flags (choose_read_strategy d))
                           O_NOCACHE)) eqn:E.
      * apply nonzero_true in E. tauto.
      * apply nonzero_false in E. split; [tauto |].
        intros [Ht | Hne]; [exact Ht | contradiction].
    + destruct (nonzero (Z.land (output_flags (choose_read_strategy d))
                           O_NOCACHE)) eqn:E.
      * apply nonzero_true in E. tauto.
      * apply nonzero_false in E. split; [tauto |].
        intros [Ht | Hne]; [exact Ht | contradiction].
Qed.

(** X12. Direct I/O and nocache never end up together.  In a run of
    [scanargs] that completes from a state with [i_nocache] and
    [o_nocache] false: when [i_nocache] is true at the end the final input
    flags have no bit of O_DIRECT, and when [o_nocache] is true the final
    output flags have none. *)
Theorem nocache_excludes_direct (argv : list string) (g0 s : globals) :
  scanargs argv g0 = Returned tt s ->
  i_nocache g0 = false ->
  o_nocache g0 = false ->
  (i_nocache s = true -> Z.land (input_flags s) O_DIRECT = 0)
  /\ (o_nocache s = true -> Z.land (output_flags s) O_DIRECT = 0).
Proof.
  intros H Hi0 Ho0.
  destruct (scanargs_Returned _ _ _ H) as (l1 & g1 & ev & Hscan & Hs).
  cbv zeta in Hs. destruct Hs as (_ & Hok & ->). clear H.
  pose proof (scan_operands_derived _ _ _ _ _ Hscan) as Hd.
  unfold derived_part in Hd.
  injection Hd as _ _ _ _ _ _ _ _ _ _ Hin Hon.
  set (d := derive_offsets l1 (set_events ev (resolve_blocksizes l1 g1)))
    in *.
  assert (Hd_in : i_nocache (choose_read_strategy d) = i_nocache g0
                  /\ o_nocache (choose_read_strategy d) = o_nocache g0).
  { unfold d. plan_fields l1 g1 ev. split; assumption. }
  destruct Hd_in as [Hci Hco].
  destruct Hok as (_ & _ & _ & _ & H5 & H6).
  apply multiple_bits_set_false in H5, H6.
  destruct (extract_nocache_fields (choose_read_strategy d))
    as (_ & _ & _ & _ & Ein & Eout & _ & _ & _ & _ & Ei & Eo & _).
  assert (Hexcl :
            forall f,
              at_most_one_bit (Z.land f (Z.lor O_DIRECT O_NOCACHE)) ->
              Z.land f O_NOCACHE <> 0 ->
              Z.land (Z.land f (Z.lnot O_NOCACHE)) O_DIRECT = 0).
  { intros f Hone Hnc.
    destruct (land_has_common_bit _ _ Hnc) as (i & Hi & Hfi & Hni).
    apply land_no_common_bit. intros n Hn Hbit.
    rewrite Z.land_spec, Z.lnot_spec in Hbit by exact Hn.
    apply andb_true_iff in Hbit. destruct Hbit as [Hfn Hnn].
    apply negb_true_iff in Hnn.
    destruct (Z.testbit O_DIRECT n) eqn:Hdn; [| reflexivity].
    assert (Hin' : i = n).
    { apply Hone; rewrite Z.land_spec, Z.lor_spec.
      - rewrite Hfi, Hni, orb_true_r. reflexivity.
      - rewrite Hfn, Hdn. reflexivity. }
    subst i. congruence. }
  split.
  - rewrite Ei, Ein, Hci, Hi0.
    destruct (nonzero (Z.land (input_flags (choose_read_strategy d))
                         O_NOCACHE)) eqn:E; [| discriminate].
    intros _. apply nonzero_true in E. exact (Hexcl _ H5 E).
  - rewrite Eo, Eout, Hco, Ho0.
    destruct (nonzero (Z.land (output_flags (choose_read_strategy d))
                         O_NOCACHE)) eqn:E; [| discriminate].
    intros _. apply nonzero_true in E. exact (Hexcl _ H6 E).
Qed.

(** X13. Block sizes given by operands respect the platform limits.  In a
    run of [scanargs] that completes: with a [bs] operand both final block
    sizes are at most [MAX_BLOCKSIZE (INPUT_BLOCK_SLOP)] (the output size
    too: [bs] is only checked against the input limit); without [bs], an
    [ibs] operand gives the final input block size, at most
    [MAX_BLOCKSIZE (INPUT_BLOCK_SLOP)], and an [obs] operand gives the
    final output block size, at most [MAX_BLOCKSIZE (OUTPUT_BLOCK_SLOP)]. *)
Theorem block_sizes_within_limits (argv : list string) (g0 s : globals) :
  scanargs argv g0 = Returned tt s ->
  (forall a,
      last_operand "bs" (operands argv g0) = Some a ->
      input_blocksize s <= MAX_BLOCKSIZE INPUT_BLOCK_SLOP
      /\ output_blocksize s <= MAX_BLOCKSIZE INPUT_BLOCK_SLOP)
  /\ (last_operand "bs" (operands argv g0) = None ->
      forall a,
        last_operand "ibs" (operands argv g0) = Some a ->
        input_blocksize s = operand_number a
        /\ input_blocksize s <= MAX_BLOCKSIZE INPUT_BLOCK_SLOP)
  /\ (last_operand "bs" (operands argv g0) = None ->
      forall a,
        last_operand "obs" (operands argv g0) = Some a ->
        output_blocksize s = operand_number a
        /\ output_blocksize s <= MAX_BLOCKSIZE OUTPUT_BLOCK_SLOP).
Proof.
  intros H.
  destruct (scanargs_Returned _ _ _ H) as (l1 & g1 & ev & Hscan & Hs).
  cbv zeta in Hs. destruct Hs as (_ & _ & ->). clear H.
  pose proof (blocksize_after_pass _ _ _ _ Hscan) as Hbs.
  assert (Hnum :
            forall k a,
              is_number k = true ->
              last_operand (opname_string k) (operands argv g0) = Some a ->
              raw_field k l1 g1 = RNum (operand_number a)
              /\ number_min k <= operand_number a <= number_max k).
  { intros k a Hk Hl.
    destruct (scan_operands_number_field k _ _ _ _ _ Hk Hscan)
      as [Hsame | (b & Hb & Hf & Hrange)].
    - pose proof (field_after_pass k _ _ _ _ _
                    ltac:(destruct k; try discriminate Hk; reflexivity)
                    Hscan) as Hf.
      rewrite Hl in Hf.
      destruct (last_operand_Some _ _ _ Hl) as [Hin Hop].
      split; [destruct k; try discriminate Hk; exact Hf |].
      exact (scan_operands_number_ok _ _ _ _ _ _ _ Hscan Hin Hop Hk).
    - rewrite Hl in Hb. injection Hb as <-. split; assumption. }
  plan_fields l1 g1 ev.
  split; [| split].
  - intros a Ha. rewrite Ha in Hbs. destruct Hbs as [Hb Hmin].
    destruct (Hnum Kbs a eq_refl Ha) as [_ [_ Hmax]].
    cbn [number_max] in Hmax.
    assert (Hnz : nonzero (blocksize l1) = true)
      by (apply nonzero_true; lia).
    rewrite Hnz, Hb. split; exact Hmax.
  - intros Hnone a Ha. rewrite Hnone in Hbs. rewrite Hbs.
    change (nonzero 0) with false. cbv iota.
    destruct (Hnum Kibs a eq_refl Ha) as [Hf [Hmin Hmax]].
    cbn [raw_field number_min number_max] in Hf, Hmin, Hmax.
    apply RNum_inj in Hf. rewrite Hf.
    destruct (Z.eqb_spec (operand_number a) 0); [lia |].
    split; [reflexivity | exact Hmax].
  - intros Hnone a Ha. rewrite Hnone in Hbs. rewrite Hbs.
    change (nonzero 0) with false. cbv iota.
    destruct (Hnum Kobs a eq_refl Ha) as [Hf [Hmin Hmax]].
    cbn [raw_field number_min number_max] in Hf, Hmin, Hmax.
    apply RNum_inj in Hf. rewrite Hf.
    destruct (Z.eqb_spec (operand_number a) 0); [lia |].
    split; [reflexivity | exact Hmax].
Qed.

End FlagSets.

Section FlagSetRuns.

Local Existing Instance Reference.platform.

Lemma rsync_alias_only_addition_run :
  exists s,
    scanargs (P := Reference.platform) ["dd"; "iflag=dsync"] Reference.start
    = Returned tt s
    /\ Z.land (input_flags s) O_RSYNC = O_RSYNC.
Proof.
  eexists. split; [vm_compute; reflexivity |].
  match goal with |- Z.land (input_flags ?s) _ = _ => set (s0 := s) end.
  assert (H : scanargs (P := Reference.platform) ["dd"; "iflag=dsync"]
                Reference.start = Returned tt s0)
    by (vm_compute; reflexivity).
  destruct (rsync_alias_only_addition _ _ _ H)
    as (l1 & g1 & Hscan & Hsync & _).
  vm_compute in Hscan. injection Hscan as _ <-.
  apply Hsync; vm_compute; [discriminate | reflexivity | reflexivity].
Defined.

Lemma consumed_flags_are_cleared_run :
  exists s,
    scanargs (P := Reference.platform)
      ["dd"; "iflag=nocache,fullblock"; "oflag=nocache"] Reference.start
    = Returned tt s
    /\ Z.land (input_flags s) O_FULLBLOCK = 0
    /\ Z.land (input_flags s) O_NOCACHE = 0
    /\ Z.land (output_flags s) O_NOCACHE = 0.
Proof.
  eexists. split; [vm_compute; reflexivity |].
  match goal with |- Z.land (input_flags ?s) _ = _ /\ _ => set (s0 := s) end.
  assert (H : scanargs (P := Reference.platform)
                ["dd"; "iflag=nocache,fullblock"; "oflag=nocache"]
                Reference.start = Returned tt s0)
    by (vm_compute; reflexivity).
  destruct (consumed_flags_are_cleared _ _ _ H) as (Hf & Hi & Ho & _).
  split; [exact Hf | split; [exact Hi | exact Ho]].
Defined.

Lemma nocache_excludes_direct_run :
  exists s,
    scanargs (P := Reference.platform)
      ["dd"; "iflag=nocache"; "oflag=direct"] Reference.start
    = Returned tt s
    /\ Z.land (input_flags s) O_DIRECT = 0.
Proof.
  eexists. split; [vm_compute; reflexivity |].
  match goal with |- Z.land (input_flags ?s) _ = _ => set (s0 := s) end.
  assert (H : scanargs (P := Reference.platform)
                ["dd"; "iflag=nocache"; "oflag=direct"]
                Reference.start = Returned tt s0)
    by (vm_compute; reflexivity).
  destruct (nocache_excludes_direct _ _ _ H eq_refl eq_refl) as [Hi _].
  apply Hi. vm_compute. reflexivity.
Defined.

Lemma block_sizes_within_limits_run :
  exists s,
    scanargs (P := Reference.platform)
      ["dd"; "ibs=512"; "obs=1024"] Reference.start
    = Returned tt s
    /\ input_blocksize s = 512
    /\ output_blocksize s <= MAX_BLOCKSIZE OUTPUT_BLOCK_SLOP.
Proof.
  eexists. split; [vm_compute; reflexivity |].
  match goal with |- input_blocksize ?s = _ /\ _ => set (s0 := s) end.
  assert (H : scanargs (P := Reference.platform)
                ["dd"; "ibs=512"; "obs=1024"]
                Reference.start = Returned tt s0)
    by (vm_compute; reflexivity).
  destruct (block_sizes_within_limits _ _ _ H) as (_ & Hibs & Hobs).
  assert (Hnone : last_operand "bs"
                    (operands ["dd"; "ibs=512"; "obs=1024"] Reference.start)
                  = None)
    by (vm_compute; reflexivity).
  assert (Hi : last_operand "ibs"
                 (operands ["dd"; "ibs=512"; "obs=1024"] Reference.start)
               = Some "ibs=512")
    by (vm_compute; reflexivity).
  assert (Ho : last_operand "obs"
                 (operands ["dd"; "ibs=512"; "obs=1024"] Reference.start)
               = Some "obs=1024")
    by (vm_compute; reflexivity).
  destruct (Hibs Hnone _ Hi) as [Hin _].
  destruct (Hobs Hnone _ Ho) as [_ Hout].
  split; [| exact Hout].
  rewrite Hin. vm_compute. reflexivity.
Defined.

End FlagSetRuns.

(** ** Further properties: how a run ends *)













Section Endings.
Context {P : Platform}.








(** X15. The placement checks of lines 302-320 never stop a run.  For
    every state, [check_flag_placement] returns, having changed nothing
    but the output; it writes nothing exactly when the output flags hold
    no bit of O_FULLBLOCK, O_COUNT_BYTES and O_SKIP_BYTES and the input
    flags no bit of O_SEEK_BYTES; and what it writes are "invalid ...
    flag" diagnostics of [error (0, 0, ...)], each followed by the
    "Try ..." line of [usage]. *)
Theorem flag_placement_only_reports (g : globals) :
  exists ev,
    check_flag_placement g = Returned tt (set_events (events g ++ ev)%list g)
    /\ (ev = []
        <-> Z.land (output_flags g) O_FULLBLOCK = 0
            /\ Z.land (input_flags g) O_SEEK_BYTES = 0
            /\ Z.land (output_flags g) (Z.lor O_COUNT_BYTES O_SKIP_BYTES)
               = 0)
    /\ Forall
         (fun e =>
            e = Fprintf_stderr "Try 'dd --help' for more information."
            \/ exists flag,
                 e = Error_msg 0 ("invalid output flag: " ++ quote flag)
                 \/ e = Error_msg 0 ("invalid input flag: " ++ quote flag))
         ev.
Proof.
  unfold check_flag_placement, when_, bind, error, usage, modify, ret, log.
  cbn [Z.eqb EXIT_FAILURE EXIT_SUCCESS negb].
  destruct g as [oi ps inf outf ibs obs cbs skr skb ser seb mr mb cm
                 ifl ofl sl wpr irf inc onc evs].
  cbn.
  destruct (nonzero (Z.land ofl O_FULLBLOCK)) eqn:E1;
    destruct (nonzero (Z.land ifl O_SEEK_BYTES)) eqn:E2;
    destruct (nonzero (Z.land ofl (Z.lor O_COUNT_BYTES O_SKIP_BYTES)))
      eqn:E3;
    repeat progress (cbn; rewrite <- ?app_assoc;
                     try rewrite E1; try rewrite E2; try rewrite E3);
    first [ eexists; split; [reflexivity |]
          | exists []; split; [rewrite app_nil_r; reflexivity |] ];
    try apply nonzero_true in E1; try apply nonzero_false in E1;
    try apply nonzero_true in E2; try apply nonzero_false in E2;
    try apply nonzero_true in E3; try apply nonzero_false in E3;
    (split;
     [ split; [intros Hnil; try discriminate Hnil; tauto
              | intros (H1 & H2 & H3); try contradiction; reflexivity]
     | repeat (apply Forall_cons;
               [ first [ left; reflexivity
                       | right; eexists; left; reflexivity
                       | right; eexists; right; reflexivity ] |]);
       apply Forall_nil ]).
Qed.

End Endings.

(* The first call of the reference [getopt_long] returns -1 or '?'. *)
Lemma getopt_scan_outcome prog rest :
  forall skipped index,
    let r := Reference.getopt_scan prog skipped rest index in
    (getopt_ret r = -1 /\ getopt_written r = [])
    \/ (getopt_ret r = 63
        /\ exists c,
             getopt_written r
             = [Fprintf_stderr (prog ++ ": invalid option -- '" ++ c ++ "'")]).
Proof.
  induction rest as [| arg rest IH]; intros skipped index; cbv zeta.
  - left. split; reflexivity.
  - cbn [Reference.getopt_scan].
    destruct (String.eqb arg "--"); [left; split; reflexivity |].
    destruct (Reference.is_option arg).
    + right. split; [reflexivity |].
      exists (Reference.option_char arg). reflexivity.
    + apply IH.
Qed.

(** X16. How [main] ends (lines 398-428).  On every platform, when
    [getopt_long] returns a nonzero value, [main] returns [EXIT_FAILURE]
    without calling [scanargs], having set [page_size] and written
    "Hello!", whatever [getopt_long] wrote, and its "Incorrect Options!"
    line.  The first call of the C library's [getopt_long] with an empty
    option string and no long options, as the reference platform has it,
    returns -1 and writes nothing, or returns '?' after one "invalid
    option" line; it never returns 0.  So on the reference platform every
    run of [main] ends that way: the call of [scanargs] and the return of
    [EXIT_SUCCESS] are never reached. *)
Theorem main_outcome :
  (forall (P : Platform) (argv : list string) (g : globals),
      let r := getopt_long argv "" in
      getopt_ret r <> 0 ->
      main argv g
      = Returned EXIT_FAILURE
          (log (Puts "Incorrect Options! Do not use GNU style options")
             (set_optind (getopt_optind r)
                (log_all (getopt_written r)
                   (set_page_size sysconf_SC_PAGESIZE
                      (log (Puts "Hello!") g))))))
  /\ (forall (argv : list string) (g : globals),
         let r := getopt_long (Platform := Reference.platform) argv "" in
         ((getopt_ret r = -1 /\ getopt_written r = [])
          \/ (getopt_ret r = 63
              /\ exists prog c,
                   getopt_written r
                   = [Fprintf_stderr
                        (prog ++ ": invalid option -- '" ++ c ++ "'")]))
         /\ main (P := Reference.platform) argv g
            = Returned EXIT_FAILURE
                (log (Puts "Incorrect Options! Do not use GNU style options")
                   (set_optind (getopt_optind r)
                      (log_all (getopt_written r)
                         (set_page_size
                            (sysconf_SC_PAGESIZE
                               (Platform := Reference.platform))
                            (log (Puts "Hello!") g)))))).
Proof.
  assert (Hgen : forall (P : Platform) (argv : list string) (g : globals),
             getopt_ret (getopt_long argv "") <> 0 ->
             main argv g
             = Returned EXIT_FAILURE
                 (log (Puts "Incorrect Options! Do not use GNU style options")
                    (set_optind (getopt_optind (getopt_long argv ""))
                       (log_all (getopt_written (getopt_long argv ""))
                          (set_page_size sysconf_SC_PAGESIZE
                             (log (Puts "Hello!") g)))))).
  { intros P argv g Hne. apply nonzero_true in Hne.
    unfold main, bind, modify, ret. rewrite Hne. reflexivity. }
  split; [exact Hgen |].
  intros argv g. cbv zeta.
  assert (Hret :
            (getopt_ret (getopt_long (Platform := Reference.platform)
                           argv "") = -1
             /\ getopt_written (getopt_long (Platform := Reference.platform)
                                  argv "") = [])
            \/ (getopt_ret (getopt_long (Platform := Reference.platform)
                              argv "") = 63
                /\ exists prog c,
                     getopt_written
                       (getopt_long (Platform := Reference.platform) argv "")
                     = [Fprintf_stderr
                          (prog ++ ": invalid option -- '" ++ c ++ "'")])).
  { change (getopt_long (Platform := Reference.platform) argv "")
      with (Reference.getopt_long_gnu argv "").
    unfold Reference.getopt_long_gnu.
    destruct argv as [| prog rest]; [left; split; reflexivity |].
    destruct (getopt_scan_outcome prog rest [] 1) as [H | [H [c Hc]]];
      [left; exact H | right; split; [exact H |]].
    exists prog, c. exact Hc. }
  split; [exact Hret |].
  apply Hgen. destruct Hret as [[H _] | [H _]]; rewrite H; discriminate.
Qed.

Section EndingRuns.

Local Existing Instance Reference.platform.


Lemma main_outcome_run :
  getopt_ret (getopt_long (Platform := Reference.platform)
                ["dd"; "-x"; "if=in"] "") <> 0
  /\ exists s,
       main (P := Reference.platform) ["dd"; "-x"; "if=in"] Reference.start
       = Returned EXIT_FAILURE s
       /\ events s
          = [Puts "Hello!";
             Fprintf_stderr "dd: invalid option -- 'x'";
             Puts "Incorrect Options! Do not use GNU style options"].
Proof.
  assert (H : getopt_ret (getopt_long (Platform := Reference.platform)
                            ["dd"; "-x"; "if=in"] "") <> 0)
    by (vm_compute; discriminate).
  split; [exact H |].
  destruct main_outcome as [Hgen _].
  eexists. split.
  - exact (Hgen Reference.platform ["dd"; "-x"; "if=in"] Reference.start H).
  - vm_compute. reflexivity.
Defined.

End EndingRuns.

(** ** Further properties: the order of the operands *)

Section Order.
Context {P : Platform}.

(* A pass completes when each of its operands completes somewhere. *)
Lemma scan_operands_complete args :
  (forall a, In a args ->
             exists l1 g1 l2 g2, scan_operand a l1 g1 = Returned l2 g2) ->
  forall l g, exists l' g', scan_operands args l g = Returned l' g'.
Proof.
  induction args as [| a rest IH]; intros Hall l g.
  - exists l, g. reflexivity.
  - destruct (Hall a (or_introl eq_refl)) as (l1 & g1 & l2 & g2 & Ha).
    destruct (scan_operand_Returned_any _ _ _ _ _ l g Ha) as (la & ga & Hs).
    destruct (IH (fun b Hb => Hall b (or_intror Hb)) la ga)
      as (l' & g' & Hrest).
    exists l', g'. cbn [scan_operands]. unfold bind. rewrite Hs.
    exact Hrest.
Qed.

(* The masks of the operands named [k], OR'ed together. *)
Lemma scan_operands_accumulated k args :
  accumulates k = true ->
  forall l g l' g' old,
    scan_operands args l g = Returned l' g' ->
    raw_field k l g = RNum old ->
    raw_field k l' g'
    = RNum (Z.lor old
              (fold_right
                 (fun a acc =>
                    if operand_is a (opname_string k)
                    then Z.lor (match operand_raw k a with
                                | RNum m => m
                                | RPtr _ => 0
                                end) acc
                    else acc)
                 0 args)).
Proof.
  intros Hacc.
  induction args as [| a rest IH]; intros l g l' g' old H Hold.
  - injection H as <- <-. cbn [fold_right]. rewrite Z.lor_0_r. exact Hold.
  - apply scan_operands_cons in H. destruct H as (l1 & g1 & Hstep & Hrest).
    cbn [fold_right].
    destruct (operand_is a (opname_string k)) eqn:Ha.
    + destruct (scan_operand_accumulate _ _ _ _ _ _ Hstep Ha Hacc)
        as (old0 & m & Hold0 & Hm & Hres).
      rewrite Hold in Hold0. injection Hold0 as <-.
      rewrite (IH _ _ _ _ _ Hrest Hres), Hm, Z.lor_assoc. reflexivity.
    + apply (IH _ _ _ _ _ Hrest).
      rewrite (scan_operand_frame _ _ _ _ _ _ Hstep Ha). exact Hold.
Qed.

Lemma accumulated_Permutation (f : string -> bool) (m : string -> Z)
    args args' :
  Permutation args args' ->
  fold_right (fun a acc => if f a then Z.lor (m a) acc else acc) 0 args
  = fold_right (fun a acc => if f a then Z.lor (m a) acc else acc) 0 args'.
Proof.
  induction 1 as [| x xs ys _ IH | x y xs | xs ys zs _ IH1 _ IH2];
    cbn [fold_right].
  - reflexivity.
  - rewrite IH. reflexivity.
  - destruct (f x), (f y); try reflexivity.
    rewrite !Z.lor_assoc, (Z.lor_comm (m y) (m x)). reflexivity.
  - rewrite IH1. exact IH2.
Qed.

Lemma accumulating_field_is_number k l g :
  accumulates k = true -> exists old, raw_field k l g = RNum old.
Proof.
  intros Hacc. destruct k; try discriminate Hacc; eexists; reflexivity.
Qed.

(** X17. The order of the operands matters only among operands of one
    name.  When the operand pass completes on [args], it completes on
    every rearrangement [args'] of them, from the same state.  The two
    passes leave the same conversions mask, input flags and output flags
    (these are OR'ed together); they leave the same value in every other
    operand variable whose last operand is the same in both orders; and
    the variables the pass leaves alone are the same.  Only the output may
    differ, in its order. *)
Theorem operand_order
    (args args' : list string) (l : locals) (g : globals)
    (l1 : locals) (g1 : globals) :
  Permutation args args' ->
  scan_operands args l g = Returned l1 g1 ->
  exists l2 g2,
    scan_operands args' l g = Returned l2 g2
    /\ (forall k,
           accumulates k = true ->
           raw_field k l2 g2 = raw_field k l1 g1)
    /\ (forall k,
           last_operand (opname_string k) args'
           = last_operand (opname_string k) args ->
           raw_field k l2 g2 = raw_field k l1 g1)
    /\ derived_part g2 = derived_part g1.
Proof.
  intros Hperm H.
  assert (Hall : forall a, In a args' ->
                   exists la ga lb gb,
                     scan_operand a la ga = Returned lb gb).
  { intros a Hin. apply (scan_operands_In _ _ _ _ _ _ H).
    apply Permutation_sym in Hperm.
    exact (Permutation_in _ Hperm Hin). }
  destruct (scan_operands_complete _ Hall l g) as (l2 & g2 & H2).
  exists l2, g2. split; [exact H2 |].
  assert (Hmask : forall k, accumulates k = true ->
                            raw_field k l2 g2 = raw_field k l1 g1).
  { intros k Hacc.
    destruct (accumulating_field_is_number k l g Hacc) as [old Hold].
    rewrite (scan_operands_accumulated k _ Hacc _ _ _ _ _ H2 Hold).
    rewrite (scan_operands_accumulated k _ Hacc _ _ _ _ _ H Hold).
    rewrite (accumulated_Permutation
               (fun a => operand_is a (opname_string k))
               (fun a => match operand_raw k a with
                         | RNum m => m
                         | RPtr _ => 0
                         end) _ _ Hperm).
    reflexivity. }
  split; [exact Hmask |].
  split.
  - intros k Hlast.
    destruct (accumulates k) eqn:Hacc; [exact (Hmask k Hacc) |].
    destruct (last_operand (opname_string k) args) as [a |] eqn:Hl.
    + rewrite (scan_operands_last k _ Hacc _ _ _ _ _ H2 Hlast).
      rewrite (scan_operands_last k _ Hacc _ _ _ _ _ H Hl).
      reflexivity.
    + rewrite (scan_operands_untouched k _ _ _ _ _ H2 Hlast).
      rewrite (scan_operands_untouched k _ _ _ _ _ H Hl).
      reflexivity.
  - rewrite (scan_operands_derived _ _ _ _ _ H2).
    rewrite (scan_operands_derived _ _ _ _ _ H). reflexivity.
Qed.

End Order.

Section OrderRuns.

Local Existing Instance Reference.platform.

Lemma operand_order_run :
  exists l2 g2,
    scan_operands (P := Reference.platform)
      ["conv=sync"; "bs=512"; "conv=lcase"] initial_locals Reference.start
    = Returned l2 g2
    /\ raw_field Kconv l2 g2
       = RNum (Z.lor (Z.lor C_LCASE C_TWOBUFS) C_SYNC)
    /\ raw_field Kbs l2 g2 = RNum 512.
Proof.
  assert (Hperm : Permutation ["conv=lcase"; "conv=sync"; "bs=512"]
                    ["conv=sync"; "bs=512"; "conv=lcase"]).
  { apply (Permutation_cons_app ["conv=sync"; "bs=512"] [] "conv=lcase").
    apply Permutation_refl. }
  pose (r := scan_operands (P := Reference.platform)
               ["conv=lcase"; "conv=sync"; "bs=512"] initial_locals
               Reference.start).
  assert (H : exists l1 g1,
                r = Returned l1 g1
                /\ raw_field Kconv l1 g1
                   = RNum (Z.lor (Z.lor C_LCASE C_TWOBUFS) C_SYNC)
                /\ raw_field Kbs l1 g1 = RNum 512).
  { do 2 eexists. split; [vm_compute; reflexivity |].
    split; vm_compute; reflexivity. }
  destruct H as (l1 & g1 & H1 & Hconv & Hbs).
  destruct (operand_order _ _ _ _ _ _ Hperm H1)
    as (l2 & g2 & H2 & Hmask & Hlast & _).
  exists l2, g2. split; [exact H2 |].
  split.
  - rewrite (Hmask Kconv eq_refl). exact Hconv.
  - rewrite (Hlast Kbs); [exact Hbs |]. vm_compute. reflexivity.
Defined.

End OrderRuns.

(** ** Further properties: after the operand pass *)

Section AfterThePass.
Context {P : Platform}.

Lemma check_flag_placement_total g :
  exists g', check_flag_placement g = Returned tt g'.
Proof.
  unfold check_flag_placement, when_, bind, error, usage, modify, ret.
  cbn [Z.eqb EXIT_FAILURE EXIT_SUCCESS negb].
  destruct g; cbn.
  repeat match goal with
         | |- context [if ?c then _ else _] => destruct c; cbn
         end;
    eexists; reflexivity.
Qed.

Lemma check_exclusive_outcome g :
  (exclusive_ok g /\ check_exclusive g = Returned tt g)
  \/ (~ exclusive_ok g
      /\ exists msg,
           check_exclusive g
           = Exited EXIT_FAILURE (log (Error_msg 0 msg) g)).
Proof.
  unfold check_exclusive, exclusive_ok, when_, bind, error, modify, ret, exit.
  cbn [Z.eqb EXIT_FAILURE negb].
  destruct (multiple_bits_set
              (Z.land (conversions_mask g)
                 (Z.lor (Z.lor C_ASCII C_EBCDIC) C_IBM))) eqn:E1;
    [right; split; [intros (H & _); discriminate H
                   | eexists; reflexivity] |].
  destruct (multiple_bits_set
              (Z.land (conversions_mask g) (Z.lor C_BLOCK C_UNBLOCK))) eqn:E2;
    [right; split; [intros (_ & H & _); discriminate H
                   | eexists; reflexivity] |].
  destruct (multiple_bits_set
              (Z.land (conversions_mask g) (Z.lor C_LCASE C_UCASE))) eqn:E3;
    [right; split; [intros (_ & _ & H & _); discriminate H
                   | eexists; reflexivity] |].
  destruct (multiple_bits_set
              (Z.land (conversions_mask g) (Z.lor C_EXCL C_NOCREAT))) eqn:E4;
    [right; split; [intros (_ & _ & _ & H & _); discriminate H
                   | eexists; reflexivity] |].
  destruct (multiple_bits_set
              (Z.land (input_flags g) (Z.lor O_DIRECT O_NOCACHE))) eqn:E5;
    [right; split; [intros (_ & _ & _ & _ & H & _); discriminate H
                   | eexists; reflexivity] |].
  destruct (multiple_bits_set
              (Z.land (output_flags g) (Z.lor O_DIRECT O_NOCACHE))) eqn:E6;
    [right; split; [intros (_ & _ & _ & _ & _ & H); discriminate H
                   | eexists; reflexivity] |].
  left. cbn. repeat split; reflexivity.
Qed.

(** X18. Only the operand pass can go wrong in [scanargs].  When the pass
    ends the process or reads through an invalid pointer, so does
    [scanargs], in the same state.  When the pass completes, lines 283-359
    always complete too, in a state [s1]; then [scanargs] returns, with
    [extract_nocache s1], when no exclusive group has several bits in
    [s1], and otherwise ends the process with [EXIT_FAILURE] after one
    diagnostic of [error], [s1] being otherwise unchanged. *)
Theorem only_the_pass_can_go_wrong (argv : list string) (g0 : globals) :
  match scan_operands (operands argv g0) initial_locals g0 with
  | Returned l1 g1 =>
      exists s1,
        resolve_fields (operands argv g0) g0 = Returned tt s1
        /\ ((exclusive_ok s1
             /\ scanargs argv g0 = Returned tt (extract_nocache s1))
            \/ (~ exclusive_ok s1
                /\ exists msg,
                     scanargs argv g0
                     = Exited EXIT_FAILURE (log (Error_msg 0 msg) s1)))
  | Exited status g => scanargs argv g0 = Exited status g
  | Undefined => scanargs argv g0 = Undefined
  end.
Proof.
  unfold scanargs, resolve_fields.
  destruct (scan_operands (operands argv g0) initial_locals g0)
    as [l1 g1 | st g |] eqn:Hscan.
  - destruct (check_flag_placement_total (resolve_blocksizes l1 g1))
      as [p Hp].
    assert (Hfields :
              (l <- scan_operands (operands argv g0) initial_locals;;
               modify (resolve_blocksizes l);;
               check_flag_placement;;
               modify (derive_offsets l);;
               modify choose_read_strategy) g0
              = Returned tt (choose_read_strategy (derive_offsets l1 p))).
    { unfold bind at 1. rewrite Hscan.
      unfold bind at 1. unfold modify at 1.
      unfold bind at 1. rewrite Hp. reflexivity. }
    exists (choose_read_strategy (derive_offsets l1 p)).
    split; [exact Hfields |].
    assert (Hsc :
              ((l <- scan_operands (operands argv g0) initial_locals;;
                modify (resolve_blocksizes l);;
                check_flag_placement;;
                modify (derive_offsets l);;
                modify choose_read_strategy);;
               check_exclusive;;
               modify extract_nocache) g0
              = (check_exclusive;; modify extract_nocache)
                  (choose_read_strategy (derive_offsets l1 p))).
    { unfold bind at 1. rewrite Hfields. reflexivity. }
    rewrite Hsc.
    destruct (check_exclusive_outcome
                (choose_read_strategy (derive_offsets l1 p)))
      as [[Hok E] | [Hno [msg E]]].
    + left. split; [exact Hok |].
      unfold bind. rewrite E. reflexivity.
    + right. split; [exact Hno |]. exists msg.
      unfold bind. rewrite E. reflexivity.
  - unfold bind. rewrite Hscan. reflexivity.
  - unfold bind. rewrite Hscan. reflexivity.
Qed.

End AfterThePass.
